(** * The Bayesian collaborative denoiser of NanairoCore

    A shallow embedding of
    [source/NanairoCore/Denoiser/bayesian_collaborative_denoiser.cpp]
    and the properties of it that the specification states.

    Conventions of the embedding.
    - [uint] values are natural numbers.  The 32-bit wrap-around of the source
      is not part of the model: every theorem below carries the hypotheses
      (image at least as wide as two patch radii, and so on) under which no
      subtraction of the source goes below zero.
    - [Float] values are exact rationals ([Qc]).  Rounding is therefore not
      modelled; a division by zero, which the source turns into an IEEE
      infinity or NaN, is a failure of the model ([None]).
    - A [zisc::pmr::vector] is a list.  Reading or writing it through
      [operator[]] outside its bounds is undefined in the source and is a
      failure of the model.  A failed [ZISC_ASSERT] is a failure as well.
    - [zisc::ArithArray<Float, kN>] has a size fixed at compile time and is
      only indexed by loop counters below [kN]; it is a list with total
      element access.
    - The OpenMP loops over worker threads and over chunks are run in
      ascending order of their index.
    - [Index2d::data()] returns the array of the two coordinates; comparing
      the [data()] of two pixels is comparing their coordinates. *)

From Stdlib Require Import ZArith QArith Qcanon Lia List Bool.
From stdpp Require Import base numbers list option.

Open Scope Qc_scope.
Open Scope nat_scope.

Abbreviation uint := nat (only parsing).
Abbreviation Float := Qc (only parsing).
Abbreviation Index2d := (nat * nat)%type (only parsing).
Abbreviation ArithArray := (list Qc) (only parsing).

(** ** Failure-aware loops *)

(** [for (x : l) body], where an iteration can fail. *)
Fixpoint forM {A S : Type} (l : list A) (body : A → S → option S) (s : S)
    : option S :=
  match l with
  | [] => Some s
  | x :: l' => s' ← body x s; forM l' body s'
  end.

(** [for (uint i = b; i < e; ++i) body]. *)
Definition for_range {S : Type} (b e : uint) (body : uint → S → option S)
    (s : S) : option S :=
  forM (seq b (e - b)) body s.

(** A loop whose body may execute [break]: the body returns the new state and
    whether it broke out. *)
Fixpoint forM_break {A S : Type} (l : list A) (body : A → S → option (S * bool))
    (s : S) : option S :=
  match l with
  | [] => Some s
  | x :: l' =>
      '(s', broke) ← body x s;
      if broke : bool then Some s' else forM_break l' body s'
  end.

(** [v[i]] and [v[i] = f(v[i])] on a vector. *)
Definition vec_get {A : Type} (v : list A) (i : uint) : option A := v !! i.

Definition vec_update {A : Type} (v : list A) (i : uint) (f : A → A)
    : option (list A) :=
  x ← v !! i; Some (<[i := f x]> v).

Definition vec_set {A : Type} (v : list A) (i : uint) (x : A)
    : option (list A) :=
  vec_update v i (λ _, x).

(** [v.resize(n)]: the kept prefix, then value-initialised elements. *)
Definition vec_resize {A : Type} (n : uint) (d : A) (v : list A) : list A :=
  take n v ++ replicate (n - length v) d.

(** ** Floats and arithmetic arrays *)

Definition cast_Float (n : uint) : Float := Q2Qc (inject_Z (Z.of_nat n)).

Definition cast_Float_int (z : Z) : Float := Q2Qc (inject_Z z).

(** [zisc::invert]. *)
Definition invert (x : Float) : option Float :=
  if decide (x = 0%Qc) then None else Some (/ x)%Qc.

Definition aa_zero (n : uint) : ArithArray := replicate n 0%Qc.

Definition aa_get (a : ArithArray) (i : uint) : Float := nth i a 0%Qc.

Definition aa_add (a b : ArithArray) : ArithArray := zip_with Qcplus a b.

Definition aa_sub (a b : ArithArray) : ArithArray := zip_with Qcminus a b.

(** [k * a] *)
Definition aa_scale (k : Float) (a : ArithArray) : ArithArray :=
  map (Qcmult k) a.

(** [a *= k] *)
Definition aa_mul_assign (a : ArithArray) (k : Float) : ArithArray :=
  map (λ x, x * k)%Qc a.

Definition aa_neg (a : ArithArray) : ArithArray := map Qcopp a.

(** The pairs [(si_a, si_b)], [si_a <= si_b < n], in the order of the double
    loop [for si_a ... for si_b = si_a ...]; the position of a pair in the
    list is the value of the running [offset]. *)
Definition upper_pairs (n : uint) : list (uint * uint) :=
  a ← seq 0 n; (λ b, (a, b)) <$> seq a (n - a).

(** ** Matrices *)

Abbreviation Matrix := (list (list Qc)) (only parsing).

Definition mat_zero (n : uint) : Matrix := replicate n (aa_zero n).


Definition mat_set (m : Matrix) (r c : uint) (x : Float) : Matrix :=
  <[r := <[c := x]> (nth r m [])]> m.

Definition mat_add (a b : Matrix) : Matrix := zip_with aa_add a b.

Definition mat_sub (a b : Matrix) : Matrix := zip_with aa_sub a b.

Definition dot (a b : ArithArray) : Float :=
  foldr Qcplus 0%Qc (zip_with Qcmult a b).

(** [m * v] *)
Definition mat_vec (m : Matrix) (v : ArithArray) : ArithArray :=
  map (λ row, dot row v) m.

(** Determinant by expansion along the first row; [n] is the dimension. *)
Fixpoint alt_sum (sign : Float) (l : list Float) : Float :=
  match l with
  | [] => 0%Qc
  | x :: l' => (sign * x + alt_sum (- sign) l')%Qc
  end.

Fixpoint determinant (n : uint) (m : Matrix) : Float :=
  match n with
  | 0 => 1%Qc
  | S n' =>
      match m with
      | [] => 0%Qc
      | row :: rest =>
          alt_sum 1%Qc
            (imap (λ j x, (x * determinant n' (map (delete j) rest))%Qc) row)
      end
  end.

Definition cofactor (n : uint) (m : Matrix) (r c : uint) : Float :=
  ((if Nat.even (r + c) then 1 else -1) *
   determinant (n - 1) (map (delete c) (delete r m)))%Qc.

(** Modelled from the spec: [zisc::Matrix::inverseMatrix], of the zisc library,
    which is not part of the sources.  The specification has the expected
    covariance inverted and calls the inversion of a degenerate matrix
    undefined: the model returns the inverse of a matrix whose determinant is
    not zero, and fails otherwise. *)
Definition inverseMatrix (n : uint) (m : Matrix) : option Matrix :=
  inv_det ← invert (determinant n m);
  Some ((λ r, (λ c, (inv_det * cofactor n m c r)%Qc) <$> seq 0 n) <$> seq 0 n).

(** ** Rendering tiles *)

(** Modelled from the spec: [RenderingTile] (NanairoCore/Data/rendering_tile.hpp
    is not part of the sources), "a rectangular pixel range [begin, end) in two
    dimensions".  [reset()] puts the cursor on [begin]; [next()] moves it one
    pixel to the right and, at the end of a row, to the start of the next row;
    [getIndex] is the row-major index of a pixel within the tile. *)
Record RenderingTile := {
  tile_begin : Index2d;
  tile_end : Index2d
}.

Definition tile_width (t : RenderingTile) : uint :=
  (tile_end t).1 - (tile_begin t).1.

Definition tile_height (t : RenderingTile) : uint :=
  (tile_end t).2 - (tile_begin t).2.

Definition numOfPixels (t : RenderingTile) : uint :=
  tile_width t * tile_height t.

Definition getIndex (t : RenderingTile) (pixel : Index2d) : uint :=
  (pixel.1 - (tile_begin t).1) + tile_width t * (pixel.2 - (tile_begin t).2).

(** The pixels that [current()] returns in a loop
    [for (p = 0; p < numOfPixels(); ++p) { ... current() ...; next(); }]
    started after [reset()]. *)
Definition tile_pixels (t : RenderingTile) : list Index2d :=
  y ← seq (tile_begin t).2 (tile_height t);
  (λ x, (x, y)) <$> seq (tile_begin t).1 (tile_width t).

(** ** The collaborators: System and SampleStatistics *)

Inductive RenderingColorMode := kRgb | kSpectra.

(** The part of [System] that the denoiser reads.  [calcThreadRange n id] is
    the range of indices, out of [n], that worker [id] processes. *)
Record System := {
  colorMode : RenderingColorMode;
  imageResolution : Index2d;
  numOfThreads : uint;
  calcThreadRange : uint → uint → Index2d
}.

(** The tables of [SampleStatistics].  A sample, its square and a histogram
    bin are arrays of one value per channel; [covarianceFactorTable] is flat,
    [numOfCovarianceFactors] entries per pixel, and [getFactorIndex si_a] is
    where the cross terms of channel [si_a] start. *)
Record SampleStatistics := {
  resolution : Index2d;
  sampleTable : list ArithArray;
  sampleSquaredTable : list ArithArray;
  numOfCovarianceFactors : uint;
  getFactorIndex : uint → uint;
  covarianceFactorTable : list Float;
  histogramTable : list ArithArray;
  denoisedSampleTable : list ArithArray
}.

Definition set_denoisedSampleTable (s : SampleStatistics)
    (t : list ArithArray) : SampleStatistics :=
  {| resolution := resolution s;
     sampleTable := sampleTable s;
     sampleSquaredTable := sampleSquaredTable s;
     numOfCovarianceFactors := numOfCovarianceFactors s;
     getFactorIndex := getFactorIndex s;
     covarianceFactorTable := covarianceFactorTable s;
     histogramTable := histogramTable s;
     denoisedSampleTable := t |}.

(** [for (si = 0; si < n; ++si) dst[si] = f(si)] on an arithmetic array. *)
Definition aa_fill (n : uint) (f : uint → Float) (dst : ArithArray)
    : ArithArray :=
  foldl (λ a si, <[si := f si]> a) dst (seq 0 n).

(** ** Parameters<kDimension> *)

Record Parameters := {
  resolution_ : Index2d;
  num_of_samples_ : uint;
  histogram_bins_ : uint;
  sample_value_table_ : list ArithArray;
  histogram_table_ : list ArithArray;
  covariance_factor_table_ : list ArithArray;
  denoised_value_table_ : list ArithArray
}.

Definition set_sample_value_table (p : Parameters) (t : list ArithArray) :=
  {| resolution_ := resolution_ p; num_of_samples_ := num_of_samples_ p;
     histogram_bins_ := histogram_bins_ p;
     sample_value_table_ := t;
     histogram_table_ := histogram_table_ p;
     covariance_factor_table_ := covariance_factor_table_ p;
     denoised_value_table_ := denoised_value_table_ p |}.

Definition set_histogram_table (p : Parameters) (t : list ArithArray) :=
  {| resolution_ := resolution_ p; num_of_samples_ := num_of_samples_ p;
     histogram_bins_ := histogram_bins_ p;
     sample_value_table_ := sample_value_table_ p;
     histogram_table_ := t;
     covariance_factor_table_ := covariance_factor_table_ p;
     denoised_value_table_ := denoised_value_table_ p |}.

Definition set_covariance_factor_table (p : Parameters) (t : list ArithArray) :=
  {| resolution_ := resolution_ p; num_of_samples_ := num_of_samples_ p;
     histogram_bins_ := histogram_bins_ p;
     sample_value_table_ := sample_value_table_ p;
     histogram_table_ := histogram_table_ p;
     covariance_factor_table_ := t;
     denoised_value_table_ := denoised_value_table_ p |}.

Definition set_denoised_value_table (p : Parameters) (t : list ArithArray) :=
  {| resolution_ := resolution_ p; num_of_samples_ := num_of_samples_ p;
     histogram_bins_ := histogram_bins_ p;
     sample_value_table_ := sample_value_table_ p;
     histogram_table_ := histogram_table_ p;
     covariance_factor_table_ := covariance_factor_table_ p;
     denoised_value_table_ := t |}.

(** The number of covariance factors of [CovarianceFactors<kDimension>]. *)
Definition numOfFactors (kDimension : uint) : uint :=
  kDimension * (kDimension + 1) / 2.

(** [Parameters(System&)]: empty tables. *)
Definition Parameters_new : Parameters :=
  {| resolution_ := (0, 0); num_of_samples_ := 0; histogram_bins_ := 0;
     sample_value_table_ := []; histogram_table_ := [];
     covariance_factor_table_ := []; denoised_value_table_ := [] |}.

(** The four [resize] calls of [init] and [downscaleOf]. *)
Definition resize_tables (kDimension : uint) (res : Index2d)
    (num_of_samples histogram_bins : uint) (self : Parameters) : Parameters :=
  {| resolution_ := res;
     num_of_samples_ := num_of_samples;
     histogram_bins_ := histogram_bins;
     sample_value_table_ :=
       vec_resize (res.1 * res.2) (aa_zero kDimension)
         (sample_value_table_ self);
     histogram_table_ :=
       vec_resize (histogram_bins * res.1 * res.2) (aa_zero kDimension)
         (histogram_table_ self);
     covariance_factor_table_ :=
       vec_resize (res.1 * res.2) (aa_zero (numOfFactors kDimension))
         (covariance_factor_table_ self);
     denoised_value_table_ :=
       vec_resize (res.1 * res.2) (aa_zero kDimension)
         (denoised_value_table_ self) |}.

Definition quarter : Float := Q2Qc (1 # 4).

(** [Parameters::downscaleAverage<kN>] *)
Definition downscaleAverage (kN : uint) (high_res : Index2d)
    (high_res_table : list ArithArray) (low_res : Index2d)
    (low_res_table : list ArithArray) (range : Index2d)
    : option (list ArithArray) :=
  for_range range.1 range.2 (λ low_index low_res_table,
    let low_pixel := (low_index mod low_res.1, low_index / low_res.1) in
    sum ← forM (seq 0 2) (λ offset_y sum,
      forM (seq 0 2) (λ offset_x sum,
        let high_pixel :=
          (Nat.min (2 * low_pixel.1 + offset_x) (high_res.1 - 1),
           Nat.min (2 * low_pixel.2 + offset_y) (high_res.2 - 1)) in
        let high_index := high_pixel.1 + high_res.1 * high_pixel.2 in
        v ← vec_get high_res_table high_index;
        Some (aa_add sum v)) sum) (aa_zero kN);
    vec_set low_res_table low_index (aa_scale quarter sum)) low_res_table.

(** The lambda [downscale_parameters] of [downscaleOf]. *)
Definition downscale_parameters (kDimension : uint) (system : System)
    (high_res_p : Parameters) (thread_id : uint) (self : Parameters)
    : option Parameters :=
  let res := resolution_ self in
  let range := calcThreadRange system (res.1 * res.2) thread_id in
  t ← downscaleAverage kDimension (resolution_ high_res_p)
         (sample_value_table_ high_res_p) res (sample_value_table_ self)
         (range.1, range.2);
  let self := set_sample_value_table self t in
  self ← for_range 0 (histogram_bins_ self) (λ b self,
    let offset := b * (res.1 * res.2) in
    t ← downscaleAverage kDimension (resolution_ high_res_p)
           (histogram_table_ high_res_p) res (histogram_table_ self)
           (offset + range.1, offset + range.2);
    Some (set_histogram_table self t)) self;
  t ← downscaleAverage (numOfFactors kDimension) (resolution_ high_res_p)
         (covariance_factor_table_ high_res_p) res
         (covariance_factor_table_ self) (range.1, range.2);
  Some (set_covariance_factor_table self t).

(** [Parameters::downscaleOf] *)
Definition downscaleOf (kDimension : uint) (system : System)
    (high_res_p : Parameters) (self : Parameters) : option Parameters :=
  let res := (Nat.shiftr (resolution_ high_res_p).1 1,
              Nat.shiftr (resolution_ high_res_p).2 1) in
  let self := resize_tables kDimension res (num_of_samples_ high_res_p)
                (histogram_bins_ high_res_p) self in
  forM (seq 0 (numOfThreads system))
    (downscale_parameters kDimension system high_res_p) self.

(** The lambda [init_parameters] of [init]. *)
Definition init_parameters (kDimension : uint) (system : System)
    (statistics : SampleStatistics) (thread_id : uint) (self : Parameters)
    : option Parameters :=
  let res := resolution_ self in
  let range := calcThreadRange system (res.1 * res.2) thread_id in
  k ← invert (cast_Float (num_of_samples_ self));
  k1 ← invert (cast_Float (num_of_samples_ self - 1));
  self ← for_range range.1 range.2 (λ pixel_index self,
    sample_p ← vec_get (sampleTable statistics) pixel_index;
    (* Calculate expected values *)
    sample_values ← vec_update (sample_value_table_ self) pixel_index
      (aa_fill kDimension (λ si, (k * aa_get sample_p si)%Qc));
    let self := set_sample_value_table self sample_values in
    (* Calculate covariance matrix *)
    sample_squared_p ← vec_get (sampleSquaredTable statistics) pixel_index;
    let factor_index := numOfCovarianceFactors statistics * pixel_index in
    covariance_factor ← vec_get (covariance_factor_table_ self) pixel_index;
    covariance_factor ← forM (imap pair (upper_pairs kDimension))
      (λ '(offset, (si_a, si_b)) covariance_factor,
        v ← (if decide (si_a = si_b)
             then Some (aa_get sample_squared_p si_a)
             else vec_get (covarianceFactorTable statistics)
                    (factor_index +
                     (getFactorIndex statistics si_a + ((si_b - si_a) - 1))));
        Some (<[offset :=
                 (v - k * aa_get sample_p si_a * aa_get sample_p si_b)%Qc]>
              covariance_factor))
      covariance_factor;
    factors ← vec_set (covariance_factor_table_ self) pixel_index
      (aa_mul_assign covariance_factor (k * k1)%Qc);
    Some (set_covariance_factor_table self factors)) self;
  (* Calculate histogram *)
  for_range 0 (histogram_bins_ self) (λ b self,
    let histogram_offset := b * (res.1 * res.2) in
    for_range range.1 range.2 (λ pixel_index self,
      let src_index := histogram_bins_ self * pixel_index + b in
      src ← vec_get (histogramTable statistics) src_index;
      let dst_index := histogram_offset + pixel_index in
      histogram ← vec_update (histogram_table_ self) dst_index
        (aa_fill kDimension (λ si, aa_get src si));
      Some (set_histogram_table self histogram)) self) self.

(** [Parameters::init] *)
Definition init (kDimension : uint) (system : System) (cycle : uint)
    (histogram_bins : uint) (statistics : SampleStatistics)
    (self : Parameters) : option Parameters :=
  let self := resize_tables kDimension (imageResolution system) cycle
                histogram_bins self in
  forM (seq 0 (numOfThreads system))
    (init_parameters kDimension system statistics) self.

(** ** PixelMarker *)

(** A [Marker] is a [std::bitset] of [2 ^ kMarkerRepBits] bits, here the bits of
    a binary natural number.  [kMarkerRepBits] is declared in the header, which
    is not part of the sources; it is a parameter of the model. *)
Record PixelMarker := {
  marker_table_ : list N
}.

Definition marker_bytes (kMarkerRepBits : uint) : uint :=
  2 ^ kMarkerRepBits / 8.

(** [PixelMarker::PixelMarker] *)
Definition PixelMarker_new (kMarkerRepBits : uint) (system : System)
    : PixelMarker :=
  let res := imageResolution system in
  let num_of_marks := Nat.shiftr (res.1 * res.2) kMarkerRepBits in
  {| marker_table_ := vec_resize num_of_marks 0%N [] |}.

(** [PixelMarker::clear] *)
Definition clear (self : PixelMarker) : PixelMarker :=
  {| marker_table_ := (λ _, 0%N) <$> marker_table_ self |}.

(** [sizeof(Marker) * 8 - 1], where [sizeof(Marker) == marker_bytes] is the
    [static_assert] of the constructor. *)
Definition marker_mask (kMarkerRepBits : uint) : uint :=
  marker_bytes kMarkerRepBits * 8 - 1.

(** [PixelMarker::isMarked] *)
Definition isMarked (kMarkerRepBits : uint) (self : PixelMarker) (index : uint)
    : option bool :=
  let marker_index := Nat.shiftr index kMarkerRepBits in
  let i := Nat.land index (marker_mask kMarkerRepBits) in
  marker ← vec_get (marker_table_ self) marker_index;
  Some (N.testbit marker (N.of_nat i)).

(** [PixelMarker::mark] *)
Definition mark (kMarkerRepBits : uint) (self : PixelMarker) (index : uint)
    : option PixelMarker :=
  let marker_index := Nat.shiftr index kMarkerRepBits in
  let i := Nat.land index (marker_mask kMarkerRepBits) in
  t ← vec_update (marker_table_ self) marker_index
         (λ marker, N.setbit marker (N.of_nat i));
  Some {| marker_table_ := t |}.

(** ** SimilarPatchMask *)

(** A [std::bitset] of a capacity that the header fixes. [set] outside the
    capacity throws, which ends a [noexcept] function. *)
Definition mask_set (m : list bool) (i : uint) : option (list bool) :=
  if decide (i < length m) then Some (<[i := true]> m) else None.

Definition mask_count (m : list bool) : uint :=
  length (filter Is_true m).

(** ** The denoiser *)

(** The members that [initialize] reads from the settings, and the constants
    of the class that the header declares: the bits of a marker word, the
    capacity of [SimilarPatchMask] and the array of [getChunkTileOrder]. *)
Record BayesianCollaborativeDenoiser := {
  histogramBins : uint;
  histogram_distance_threshold_ : Float;
  patch_radius_ : uint;
  search_radius_ : uint;
  num_of_scales_ : uint;
  kMarkerRepBits : uint;
  kSimilarPatchMaskSize : uint;
  getChunkTileOrder : list Index2d
}.

Section Denoiser.

Variable self : BayesianCollaborativeDenoiser.

(** [getChunkSize] *)
Definition getChunkSize : uint :=
  let size := 3 * search_radius_ self in
  size.

(** [getChunkResolution] *)
Definition getChunkResolution (res : Index2d) : Index2d :=
  let res := (res.1 - 2 * patch_radius_ self, res.2 - 2 * patch_radius_ self) in
  let chunk_size := getChunkSize in
  let chunk_w := (res.1 / chunk_size) +
                 (if decide (res.1 mod chunk_size ≠ 0) then 1 else 0) in
  let chunk_h := (res.2 / chunk_size) +
                 (if decide (res.2 mod chunk_size ≠ 0) then 1 else 0) in
  (chunk_w, chunk_h).

(** [getNumOfPatchPixels] *)
Definition getNumOfPatchPixels : uint :=
  let size := (2 * patch_radius_ self + 1) ^ 2 in
  size.

(** [getNumOfSearchWindowPixels] *)
Definition getNumOfSearchWindowPixels : uint :=
  let max_num_of_patches := (2 * search_radius_ self + 1) ^ 2 in
  max_num_of_patches.

(** [getPatchDimension<kDimension>] *)
Definition getPatchDimension (kDimension : uint) : uint :=
  let dimension := kDimension * getNumOfPatchPixels in
  dimension.

(** [makePatch] *)
Definition makePatch (center_pixel : Index2d) : RenderingTile :=
  let begin := (center_pixel.1 - patch_radius_ self,
                center_pixel.2 - patch_radius_ self) in
  let end_ := (center_pixel.1 + patch_radius_ self + 1,
               center_pixel.2 + patch_radius_ self + 1) in
  {| tile_begin := begin; tile_end := end_ |}.

(** [makeSearchWindow] *)
Definition makeSearchWindow (res : Index2d) (center_pixel : Index2d)
    : RenderingTile :=
  let begin :=
    (Nat.max (patch_radius_ self + search_radius_ self) center_pixel.1 -
       search_radius_ self,
     Nat.max (patch_radius_ self + search_radius_ self) center_pixel.2 -
       search_radius_ self) in
  let end_ :=
    (Nat.min (res.1 - patch_radius_ self)
       (center_pixel.1 + search_radius_ self + 1),
     Nat.min (res.2 - patch_radius_ self)
       (center_pixel.2 + search_radius_ self + 1)) in
  {| tile_begin := begin; tile_end := end_ |}.

(** [makeChunkTile] *)
Definition makeChunkTile (res : Index2d) (chunk_position tile_position : Index2d)
    : RenderingTile :=
  let chunk_size := getChunkSize in
  let begin :=
    (patch_radius_ self + chunk_size * chunk_position.1 +
       search_radius_ self * tile_position.1,
     patch_radius_ self + chunk_size * chunk_position.2 +
       search_radius_ self * tile_position.2) in
  let end_ := (begin.1 + search_radius_ self, begin.2 + search_radius_ self) in
  let begin := (Nat.min begin.1 (res.1 - patch_radius_ self),
                Nat.min begin.2 (res.2 - patch_radius_ self)) in
  let end_ := (Nat.min end_.1 (res.1 - patch_radius_ self),
               Nat.min end_.2 (res.2 - patch_radius_ self)) in
  {| tile_begin := begin; tile_end := end_ |}.

(** The pixel [patch_offset] of the patch around [pixel]:
    [{(pixel[0] + patch_offset[0]) - patch_radius_,
      (pixel[1] + patch_offset[1]) - patch_radius_}]. *)
Definition patchPixel (pixel patch_offset : Index2d) : Index2d :=
  ((pixel.1 + patch_offset.1) - patch_radius_ self,
   (pixel.2 + patch_offset.2) - patch_radius_ self).

(** [{patch_number % (2 * patch_radius_ + 1),
      patch_number / (2 * patch_radius_ + 1)}] *)
Definition patchOffset (patch_number : uint) : Index2d :=
  (patch_number mod (2 * patch_radius_ self + 1),
   patch_number / (2 * patch_radius_ self + 1)).

(** [pixel[0] + resolution[0] * pixel[1]] *)
Definition pixelIndex (res : Index2d) (pixel : Index2d) : uint :=
  pixel.1 + res.1 * pixel.2.

(** [toMatrix<kDimension>] *)
Definition toMatrix (kDimension : uint) (factors : ArithArray) : Matrix :=
  foldl (λ matrix '(offset, (si_a, si_b)),
           mat_set (mat_set matrix si_a si_b (aa_get factors offset))
             si_b si_a (aa_get factors offset))
    (mat_zero kDimension) (imap pair (upper_pairs kDimension)).

(** [calcEmpiricalMean<kN>] *)
Definition calcEmpiricalMean (kN : uint) (res : Index2d)
    (search_window : RenderingTile) (patch_offset : Index2d)
    (similar_mask : list bool) (table : list ArithArray) : option ArithArray :=
  mean ← forM (tile_pixels search_window) (λ neighbor_pixel mean,
    similar ← vec_get similar_mask (getIndex search_window neighbor_pixel);
    if similar : bool then
      let src_pixel := patchPixel neighbor_pixel patch_offset in
      let src_index := pixelIndex res src_pixel in
      v ← vec_get table src_index;
      Some (aa_add mean v)
    else Some mean) (aa_zero kN);
  k ← invert (cast_Float (mask_count similar_mask));
  Some (aa_mul_assign mean k).

(** [calcEmpiricalCovarianceMatrix<kDimension>] *)
Definition calcEmpiricalCovarianceMatrix (kDimension : uint) (res : Index2d)
    (search_window : RenderingTile) (patch_offset : Index2d)
    (similar_mask : list bool) (value_table : list ArithArray)
    (value_mean : ArithArray) : option ArithArray :=
  mean ← forM (tile_pixels search_window) (λ neighbor_pixel mean,
    similar ← vec_get similar_mask (getIndex search_window neighbor_pixel);
    if similar : bool then
      let src_pixel := patchPixel neighbor_pixel patch_offset in
      let src_index := pixelIndex res src_pixel in
      v ← vec_get value_table src_index;
      let diff := aa_sub v value_mean in
      Some (foldl (λ mean '(offset, (si_a, si_b)),
                     <[offset := (aa_get mean offset +
                                  aa_get diff si_a * aa_get diff si_b)%Qc]> mean)
              mean (imap pair (upper_pairs kDimension)))
    else Some mean) (aa_zero (numOfFactors kDimension));
  k ← invert (cast_Float (mask_count similar_mask - 1));
  Some (aa_mul_assign mean k).

(** [calcStagingDenoisedValue<kDimension>] *)
Definition calcStagingDenoisedValue (kDimension : uint) (res : Index2d)
    (search_window : RenderingTile) (patch_offset : Index2d)
    (similar_mask : list bool) (expected_mean : ArithArray)
    (covariance_mean expected_covariance : Matrix)
    (value_table : list ArithArray) (staging_value_table : list ArithArray)
    : option (list ArithArray) :=
  inv_expected_covariance ← inverseMatrix kDimension expected_covariance;
  forM (tile_pixels search_window) (λ neighbor_pixel staging_value_table,
    similar ← vec_get similar_mask (getIndex search_window neighbor_pixel);
    if similar : bool then
      let target_pixel := patchPixel neighbor_pixel patch_offset in
      let index := pixelIndex res target_pixel in
      x ← vec_get value_table index;
      let tmp := mat_vec inv_expected_covariance (aa_sub x expected_mean) in
      vec_set staging_value_table index (aa_sub x (mat_vec covariance_mean tmp))
    else Some staging_value_table) staging_value_table.

(** [calcHistogramDistance<kDimension>]: the returned sum, and the counter
    behind [num_of_non_both0]. *)
Definition calcHistogramDistance (kDimension : uint)
    (histogram_lhs histogram_rhs : ArithArray) (num_of_non_both0 : uint)
    : Float * uint :=
  foldl (λ '(distance_sum, num_of_non_both0) si,
           let lhs := aa_get histogram_lhs si in
           let rhs := aa_get histogram_rhs si in
           if decide (1 < lhs + rhs)%Qc then
             let d := ((lhs - rhs) * (lhs - rhs) / (lhs + rhs))%Qc in
             ((distance_sum + d)%Qc, S num_of_non_both0)
           else (distance_sum, num_of_non_both0))
    (0%Qc, num_of_non_both0) (seq 0 kDimension).

(** [calcHistogramPatchDistance<kDimension>] *)
Definition calcHistogramPatchDistance (kDimension : uint)
    (parameters : Parameters) (center_pixel_lhs center_pixel_rhs : Index2d)
    : option Float :=
  let res := resolution_ parameters in
  let patch_lhs := makePatch center_pixel_lhs in
  let patch_rhs := makePatch center_pixel_rhs in
  '(histogram_distance, num_of_non_both0) ←
    for_range 0 (histogram_bins_ parameters) (λ b acc,
      let histogram_offset := b * res.1 * res.2 in
      for_range 0 getNumOfPatchPixels (λ p '(histogram_distance, num),
        p_lhs ← tile_pixels patch_lhs !! p;
        p_rhs ← tile_pixels patch_rhs !! p;
        let index_lhs := pixelIndex res p_lhs in
        let index_rhs := pixelIndex res p_rhs in
        let histogram_table := histogram_table_ parameters in
        histogram_lhs ← vec_get histogram_table (histogram_offset + index_lhs);
        histogram_rhs ← vec_get histogram_table (histogram_offset + index_rhs);
        let '(d, num) :=
          calcHistogramDistance kDimension histogram_lhs histogram_rhs num in
        Some ((histogram_distance + d)%Qc, num)) acc) (0%Qc, 0);
  (* ZISC_ASSERT(0 < num_of_non_both0, "The num of elements is zero.") *)
  if decide (0 < num_of_non_both0) then
    Some (histogram_distance / cast_Float num_of_non_both0)%Qc
  else None.

(** [selectSimilarPatches<kDimension>] *)
Definition selectSimilarPatches (kDimension : uint) (parameters : Parameters)
    (main_pixel : Index2d) : option (list bool) :=
  let similar_mask := replicate (kSimilarPatchMaskSize self) false in
  let search_window := makeSearchWindow (resolution_ parameters) main_pixel in
  (* ZISC_ASSERT(search_window.numOfPixels() < similar_mask.size(), ...) *)
  if decide (numOfPixels search_window < length similar_mask) then
    forM (tile_pixels search_window) (λ neighbor_pixel similar_mask,
      d ← (if decide (neighbor_pixel ≠ main_pixel)
           then calcHistogramPatchDistance kDimension parameters main_pixel
                  neighbor_pixel
           else Some 0%Qc);
      if decide (d ≤ histogram_distance_threshold_ self)%Qc then
        let index := getIndex search_window neighbor_pixel in
        mask_set similar_mask index
      else Some similar_mask) similar_mask
  else None.

(** The buffers that [denoiseMultiscale] hands down by pointer: the
    [Parameters] of the scale at work, the staging values, the estimate
    counters and the pixel marker. *)
Record Workspace := {
  parameters : Parameters;
  staging_value_table : list ArithArray;
  estimates_counter : list Z;
  pixel_marker : PixelMarker
}.

(** [denoiseOnlyMainPatch<kDimension>] *)
Definition denoiseOnlyMainPatch (kDimension : uint) (main_pixel : Index2d)
    (similar_mask : list bool) (st : Parameters * list Z)
    : option (Parameters * list Z) :=
  let res := resolution_ st.1 in
  let search_window := makeSearchWindow res main_pixel in
  for_range 0 getNumOfPatchPixels (λ patch_number '(parameters, estimates_counter),
    let patch_offset := patchOffset patch_number in
    (* Sum up sample values of similar pixels *)
    estimated_value ← forM (tile_pixels search_window)
      (λ neighbor_pixel estimated_value,
        similar ← vec_get similar_mask (getIndex search_window neighbor_pixel);
        if similar : bool then
          let src_pixel := patchPixel neighbor_pixel patch_offset in
          let src_index := pixelIndex res src_pixel in
          v ← vec_get (sample_value_table_ parameters) src_index;
          Some (aa_add estimated_value v)
        else Some estimated_value) (aa_zero kDimension);
    k ← invert (cast_Float (mask_count similar_mask));
    let estimated_value := aa_mul_assign estimated_value k in
    (* Calc estimated value *)
    let dst_pixel := patchPixel main_pixel patch_offset in
    let dst_index := pixelIndex res dst_pixel in
    denoised ← vec_update (denoised_value_table_ parameters) dst_index
      (λ v, aa_add v estimated_value);
    estimates_counter ← vec_update estimates_counter dst_index Z.succ;
    Some (set_denoised_value_table parameters denoised, estimates_counter)) st.

(** The last loop of an iteration of [denoiseSelectedPatches]: the staged
    values are added to the denoised values. *)
Definition accumulateStaging (res : Index2d) (search_window : RenderingTile)
    (patch_offset : Index2d) (similar_mask : list bool) (ws : Workspace)
    : option Workspace :=
  forM (tile_pixels search_window) (λ neighbor_pixel ws,
    similar ← vec_get similar_mask (getIndex search_window neighbor_pixel);
    if similar : bool then
      let target_pixel := patchPixel neighbor_pixel patch_offset in
      let index := pixelIndex res target_pixel in
      staging_value ← vec_get (staging_value_table ws) index;
      denoised ← vec_update (denoised_value_table_ (parameters ws)) index
        (λ v, aa_add v staging_value);
      counter ← vec_update (estimates_counter ws) index Z.succ;
      marker ← (if decide (patch_offset = (patch_radius_ self, patch_radius_ self))
                then mark (kMarkerRepBits self) (pixel_marker ws) index
                else Some (pixel_marker ws));
      Some {| parameters := set_denoised_value_table (parameters ws) denoised;
              staging_value_table := staging_value_table ws;
              estimates_counter := counter;
              pixel_marker := marker |}
    else Some ws) ws.

(** [denoiseSelectedPatches<kDimension>] *)
Definition denoiseSelectedPatches (kDimension : uint) (main_pixel : Index2d)
    (similar_mask : list bool) (ws : Workspace) : option Workspace :=
  let res := resolution_ (parameters ws) in
  let search_window := makeSearchWindow res main_pixel in
  for_range 0 getNumOfPatchPixels (λ patch_number ws,
    let patch_offset := patchOffset patch_number in
    let p := parameters ws in
    (* Step1 *)
    covariance_mean ← toMatrix kDimension <$>
      calcEmpiricalMean (numOfFactors kDimension) res search_window
        patch_offset similar_mask (covariance_factor_table_ p);
    expected_mean ←
      calcEmpiricalMean kDimension res search_window patch_offset
        similar_mask (sample_value_table_ p);
    expected_covariance ← toMatrix kDimension <$>
      calcEmpiricalCovarianceMatrix kDimension res search_window patch_offset
        similar_mask (sample_value_table_ p) expected_mean;
    (* todo: Clamping *)
    let expected_covariance :=
      mat_add covariance_mean (mat_sub expected_covariance covariance_mean) in
    staging ←
      calcStagingDenoisedValue kDimension res search_window patch_offset
        similar_mask expected_mean covariance_mean expected_covariance
        (sample_value_table_ p) (staging_value_table ws);
    (* Step2 *)
    expected_mean ←
      calcEmpiricalMean kDimension res search_window patch_offset
        similar_mask staging;
    expected_covariance ← toMatrix kDimension <$>
      calcEmpiricalCovarianceMatrix kDimension res search_window patch_offset
        similar_mask staging expected_mean;
    staging ←
      calcStagingDenoisedValue kDimension res search_window patch_offset
        similar_mask expected_mean covariance_mean
        (mat_add expected_covariance covariance_mean)
        (sample_value_table_ p) staging;
    accumulateStaging res search_window patch_offset similar_mask
      {| parameters := p; staging_value_table := staging;
         estimates_counter := estimates_counter ws;
         pixel_marker := pixel_marker ws |}) ws.

(** [denoisePixels<kDimension>] *)
Definition denoisePixels (kDimension : uint) (main_pixel : Index2d)
    (ws : Workspace) : option Workspace :=
  similar_mask ← selectSimilarPatches kDimension (parameters ws) main_pixel;
  let num_of_similar_patches := mask_count similar_mask in
  if decide (num_of_similar_patches ≤ getPatchDimension kDimension) then
    '(p, counter) ← denoiseOnlyMainPatch kDimension main_pixel similar_mask
                      (parameters ws, estimates_counter ws);
    Some {| parameters := p; staging_value_table := staging_value_table ws;
            estimates_counter := counter; pixel_marker := pixel_marker ws |}
  else
    denoiseSelectedPatches kDimension main_pixel similar_mask ws.

(** The lambda [denoise_chunk] of [denoiseChunk]. *)
Definition denoise_chunk (kDimension : uint) (chunk_resolution : Index2d)
    (tile_position : Index2d) (chunk_number : uint) (ws : Workspace)
    : option Workspace :=
  let res := resolution_ (parameters ws) in
  let chunk_position := (chunk_number mod chunk_resolution.1,
                         chunk_number / chunk_resolution.1) in
  let chunk_tile := makeChunkTile res chunk_position tile_position in
  forM (tile_pixels chunk_tile) (λ current_pixel ws,
    let pixel_index := pixelIndex res current_pixel in
    marked ← isMarked (kMarkerRepBits self) (pixel_marker ws) pixel_index;
    if marked : bool then Some ws
    else denoisePixels kDimension current_pixel ws) ws.

(** [denoiseChunk<kDimension>] *)
Definition denoiseChunk (kDimension : uint) (chunk_resolution : Index2d)
    (tile_position : Index2d) (ws : Workspace) : option Workspace :=
  for_range 0 (chunk_resolution.1 * chunk_resolution.2)
    (denoise_chunk kDimension chunk_resolution tile_position) ws.

(** [aggregate<kDimension>] *)
Definition aggregate (system : System) (estimates_counter : list Z)
    (parameters : Parameters) : option Parameters :=
  forM (seq 0 (numOfThreads system)) (λ thread_id parameters,
    let res := resolution_ parameters in
    let range := calcThreadRange system (res.1 * res.2) thread_id in
    for_range range.1 range.2 (λ pixel_index parameters,
      count ← vec_get estimates_counter pixel_index;
      (* ZISC_ASSERT(0 < estimates_counter[pixel_index], ...) *)
      if decide (0 < count)%Z then
        k ← invert (cast_Float_int count);
        denoised ← vec_update (denoised_value_table_ parameters) pixel_index
          (λ target, aa_mul_assign target k);
        Some (set_denoised_value_table parameters denoised)
      else None) parameters) parameters.

(** [aggregateFinal<kDimension>] *)
Definition aggregateFinal (kDimension : uint) (system : System)
    (parameters : Parameters) (statistics : SampleStatistics)
    : option SampleStatistics :=
  forM (seq 0 (numOfThreads system)) (λ thread_id statistics,
    let res := resolution_ parameters in
    let range := calcThreadRange system (res.1 * res.2) thread_id in
    for_range range.1 range.2 (λ pixel_index statistics,
      let p := (pixel_index mod res.1, pixel_index / res.1) in
      src ← vec_get (denoised_value_table_ parameters) pixel_index;
      let dst_index := p.1 + (resolution statistics).1 * p.2 in
      denoised ← vec_update (denoisedSampleTable statistics) dst_index
        (aa_fill kDimension (λ si, aa_get src si));
      Some (set_denoisedSampleTable statistics denoised)) statistics) statistics.

(** The local variables of [denoiseMultiscale] that its scale loop changes.
    The pointer [parameters] is the index of a scale, [None] while it is
    [nullptr]; [cout] is what the loop prints, a scale and a tile number per
    line. *)
Record ScaleLoop := {
  multiscale_parameters : list Parameters;
  loop_staging_value_table : list ArithArray;
  loop_estimates_counter : list Z;
  loop_pixel_marker : PixelMarker;
  parameters_ptr : option uint;
  cout : list (uint * uint)
}.

(** The tile loop of [denoiseMultiscale]: [denoiseChunk] for every tile
    position of [getChunkTileOrder], and the line printed after each. *)
Definition denoiseTiles (kDimension : uint) (chunk_resolution : Index2d)
    (scale : uint) (tile_order : list Index2d) (first_tile_number : uint)
    (st : Workspace * list (uint * uint))
    : option (Workspace * list (uint * uint)) :=
  forM (imap (λ i, pair (first_tile_number + i)) tile_order)
    (λ '(tile_number, tile_position) '(ws, out),
      ws ← denoiseChunk kDimension chunk_resolution tile_position ws;
      Some (ws, out ++ [(scale, tile_number)])) st.

(** One iteration of the scale loop of [denoiseMultiscale], up to its
    [break]. *)
Definition denoiseScale (kDimension : uint) (system : System)
    (iteration : uint) (st : ScaleLoop) : option (ScaleLoop * bool) :=
  (* Clear buffers *)
  let counter := (λ _, 0%Z) <$> loop_estimates_counter st in
  let marker := clear (loop_pixel_marker st) in
  let scale := num_of_scales_ self - (iteration + 1) in
  p ← vec_get (multiscale_parameters st) scale;
  let chunk_resolution := getChunkResolution (resolution_ p) in
  '(ws, out) ← denoiseTiles kDimension chunk_resolution scale
    (getChunkTileOrder self) 0
    ({| parameters := p;
        staging_value_table := loop_staging_value_table st;
        estimates_counter := counter; pixel_marker := marker |}, cout st);
  p ← aggregate system (estimates_counter ws) (parameters ws);
  scales ← vec_set (multiscale_parameters st) scale p;
  Some ({| multiscale_parameters := scales;
           loop_staging_value_table := staging_value_table ws;
           loop_estimates_counter := estimates_counter ws;
           loop_pixel_marker := pixel_marker ws;
           parameters_ptr := Some scale;
           cout := out |},
        (* break *) true).

(** The pyramid of [denoiseMultiscale]: [init] for scale 0, [downscaleOf]
    for the others. *)
Definition buildPyramid (kDimension : uint) (system : System) (cycle : uint)
    (statistics : SampleStatistics) : option (list Parameters) :=
  let scales := replicate (num_of_scales_ self) Parameters_new in
  p ← vec_get scales 0;
  p ← init kDimension system cycle (histogramBins self) statistics p;
  scales ← vec_set scales 0 p;
  for_range 1 (num_of_scales_ self) (λ scale scales,
    high ← vec_get scales (scale - 1);
    low ← vec_get scales scale;
    low ← downscaleOf kDimension system high low;
    vec_set scales scale low) scales.

(** The part of [denoiseMultiscale<kDimension>] that follows the pyramid: the
    buffers, the scale loop and [aggregateFinal]. *)
Definition denoiseScales (kDimension : uint) (system : System)
    (statistics : SampleStatistics) (scales : list Parameters)
    : option (SampleStatistics * list (uint * uint)) :=
  p0 ← vec_get scales 0;
  let staging :=
    vec_resize (length (sample_value_table_ p0)) (aa_zero kDimension) [] in
  let counter := vec_resize (length (sample_value_table_ p0)) 0%Z [] in
  let marker := PixelMarker_new (kMarkerRepBits self) system in
  st ← forM_break (seq 0 (num_of_scales_ self))
    (denoiseScale kDimension system)
    {| multiscale_parameters := scales;
       loop_staging_value_table := staging;
       loop_estimates_counter := counter;
       loop_pixel_marker := marker;
       parameters_ptr := None;
       cout := [] |};
  scale ← parameters_ptr st;
  p ← vec_get (multiscale_parameters st) scale;
  statistics ← aggregateFinal kDimension system p statistics;
  Some (statistics, cout st).

(** [denoiseMultiscale<kDimension>]: the statistics with the denoised table
    written, and the lines printed. *)
Definition denoiseMultiscale (kDimension : uint) (system : System)
    (cycle : uint) (statistics : SampleStatistics)
    : option (SampleStatistics * list (uint * uint)) :=
  scales ← buildPyramid kDimension system cycle statistics;
  denoiseScales kDimension system statistics scales.

(** [denoise]; [spectraSize] is [CoreConfig::spectraSize()]. *)
Definition denoise (spectraSize : uint) (system : System) (cycle : uint)
    (statistics : SampleStatistics)
    : option (SampleStatistics * list (uint * uint)) :=
  match colorMode system with
  | kRgb => denoiseMultiscale 3 system cycle statistics
  | kSpectra => denoiseMultiscale spectraSize system cycle statistics
  end.

End Denoiser.

(** The workspace at the start of the pass of a scale: counters and marker
    cleared. *)
Definition clearedWorkspace (p : Parameters) (staging : list ArithArray)
    (counter : list Z) (marker : PixelMarker) : Workspace :=
  {| parameters := p;
     staging_value_table := staging;
     estimates_counter := (λ _, 0%Z) <$> counter;
     pixel_marker := clear marker |}.

(** ** Concrete inputs *)

(** The nine tile positions of a chunk, row by row. *)
Definition rowMajorTileOrder : list Index2d :=
  y ← seq 0 3; (λ x, (x, y)) <$> seq 0 3.

(** A denoiser for markers of 64 bits and masks of 64 bits. *)
Definition exampleDenoiser (bins : uint) (threshold : Float)
    (patch_radius search_radius scales : uint) : BayesianCollaborativeDenoiser :=
  {| histogramBins := bins;
     histogram_distance_threshold_ := threshold;
     patch_radius_ := patch_radius;
     search_radius_ := search_radius;
     num_of_scales_ := scales;
     kMarkerRepBits := 6;
     kSimilarPatchMaskSize := 64;
     getChunkTileOrder := rowMajorTileOrder |}.

(** A system with one worker thread, which processes every index. *)
Definition exampleSystem (w h : uint) : System :=
  {| colorMode := kRgb;
     imageResolution := (w, h);
     numOfThreads := 1;
     calcThreadRange := λ n _, (0, n) |}.

Definition q (z : Z) : Float := Q2Qc (inject_Z z).

(** [getFactorIndex] for three channels: the cross terms (0,1), (0,2), (1,2). *)
Definition rgbFactorIndex (si_a : uint) : uint :=
  match si_a with 0 => 0 | 1 => 2 | _ => 3 end.

(** The statistics of [cycle] samples of one colour: every sample of every
    pixel has the value [num / den] in each of its three channels, and falls in
    bin [bin] of the [bins] histogram bins. *)
Definition constantStatistics (w h : uint) (cycle : Z) (num den : Z)
    (bins bin : uint) : SampleStatistics :=
  let n := w * h in
  let x := (q num / q den)%Qc in
  {| resolution := (w, h);
     sampleTable := replicate n (replicate 3 (q cycle * x)%Qc);
     sampleSquaredTable := replicate n (replicate 3 (q cycle * x * x)%Qc);
     numOfCovarianceFactors := 3;
     getFactorIndex := rgbFactorIndex;
     covarianceFactorTable := replicate (3 * n) (q cycle * x * x)%Qc;
     histogramTable :=
       mjoin (replicate n ((λ b, replicate 3 (if decide (b = bin) then q cycle
                                             else 0%Qc)) <$> seq 0 bins));
     denoisedSampleTable := replicate n (replicate 3 0%Qc) |}.

(** A two by two image with two histogram bins and one channel. *)
Definition twoBinParameters : Parameters :=
  {| resolution_ := (2, 2);
     num_of_samples_ := 4;
     histogram_bins_ := 2;
     sample_value_table_ := [[q 1]; [q 1]; [q 1]; [q 1]];
     histogram_table_ := [[q 1]; [q 2]; [q 3]; [q 4];
                          [q 10]; [q 20]; [q 30]; [q 40]];
     covariance_factor_table_ := [[q 1]; [q 1]; [q 1]; [q 1]];
     denoised_value_table_ := [[q 0]; [q 0]; [q 0]; [q 0]] |}.

(** The instance that [init] builds from [constantStatistics] with sixteen
    samples of the value 1/2, eight bins and every sample in bin 4: the mean
    1/2 in each channel, covariance factors zero, sixteen in bin 4 of the
    histogram. *)
Definition constantParameters (w h : uint) : Parameters :=
  {| resolution_ := (w, h);
     num_of_samples_ := 16;
     histogram_bins_ := 8;
     sample_value_table_ := replicate (w * h) (replicate 3 (q 1 / q 2)%Qc);
     histogram_table_ :=
       mjoin ((λ b, replicate (w * h)
                      (replicate 3 (if decide (b = 4) then q 16 else 0%Qc)))
                <$> seq 0 8);
     covariance_factor_table_ := replicate (w * h) (replicate 6 0%Qc);
     denoised_value_table_ := replicate (w * h) (replicate 3 0%Qc) |}.

(** An image of one channel and one histogram bin whose values and histogram
    change from pixel to pixel. *)
Definition rampParameters (w h : uint) : Parameters :=
  {| resolution_ := (w, h);
     num_of_samples_ := 16;
     histogram_bins_ := 1;
     sample_value_table_ := (λ i, [q (Z.of_nat (i mod 5))]) <$> seq 0 (w * h);
     histogram_table_ :=
       (λ i, [q (Z.of_nat (2 + i mod 3))]) <$> seq 0 (w * h);
     covariance_factor_table_ := replicate (w * h) [q 1];
     denoised_value_table_ := replicate (w * h) [q 0] |}.

(** The workspace of a pass over [rampParameters 8 8], and the pass. *)
Definition rampWorkspace : Workspace :=
  clearedWorkspace (rampParameters 8 8) (replicate 64 [q 0])
    (replicate 64 0%Z) (PixelMarker_new 6 (exampleSystem 8 8)).

Definition rampPass (self : BayesianCollaborativeDenoiser)
    : option (Workspace * list (uint * uint)) :=
  denoiseTiles self 1
    (getChunkResolution self (resolution_ (rampParameters 8 8))) 0
    (getChunkTileOrder self) 0
    (clearedWorkspace (rampParameters 8 8) (replicate 64 [q 0])
       (replicate 64 0%Z) (PixelMarker_new 6 (exampleSystem 8 8)), []).

(** The rational numbers behind a table, for comparing computed tables. *)
Definition table_this (t : list ArithArray) : list (list Q) :=
  map (map this) t.

(** * Properties *)

(** ** Chunk partitioning *)

Lemma getChunkSize_eq (self : BayesianCollaborativeDenoiser) :
  getChunkSize self = 3 * search_radius_ self.
Proof. reflexivity. Qed.

(** The number of chunks per axis is the ceiling of the width left between
    the two patch borders over the chunk size. *)
Lemma getChunkResolution_eq (self : BayesianCollaborativeDenoiser)
    (res : Index2d) :
  let ceil_div a b := a / b + (if decide (a mod b ≠ 0) then 1 else 0) in
  getChunkResolution self res =
    (ceil_div (res.1 - 2 * patch_radius_ self) (3 * search_radius_ self),
     ceil_div (res.2 - 2 * patch_radius_ self) (3 * search_radius_ self)).
Proof. reflexivity. Qed.

(** C8, as the code has it: the chunk side is [3 * search_radius_]; for a
    32 by 32 image and search radius 4 the chunk grid is
    ceil((32 - 2 * patch_radius_) / 12) per axis, which is (3,3) for a patch
    radius up to 3 and (2,2) for patch radius 4. *)
Theorem chunk_grid_32_radius_4 (self : BayesianCollaborativeDenoiser) :
  search_radius_ self = 4 →
  patch_radius_ self ≤ search_radius_ self →
  getChunkSize self = 3 * search_radius_ self ∧
  getChunkSize self = 12 ∧
  getChunkResolution self (32, 32) =
    (if decide (patch_radius_ self ≤ 3) then (3, 3) else (2, 2)).
Proof.
  intros Hs Hp. rewrite getChunkResolution_eq, getChunkSize_eq, Hs in *.
  split; [done|]. split; [done|]. cbn [fst snd].
  assert (Hcases : patch_radius_ self ∈ [0; 1; 2; 3; 4]).
  { rewrite !elem_of_cons. lia. }
  rewrite !elem_of_cons in Hcases.
  destruct Hcases as [->|[->|[->|[->|[->|Hnil]]]]]; try reflexivity.
  by apply elem_of_nil in Hnil.
Qed.

Lemma chunk_grid_32_radius_4_witness :
  search_radius_ (exampleDenoiser 8 0%Qc 1 4 1) = 4 ∧
  patch_radius_ (exampleDenoiser 8 0%Qc 1 4 1) ≤
    search_radius_ (exampleDenoiser 8 0%Qc 1 4 1) ∧
  getChunkSize (exampleDenoiser 8 0%Qc 1 4 1) = 12 ∧
  getChunkResolution (exampleDenoiser 8 0%Qc 1 4 1) (32, 32) = (3, 3).
Proof.
  assert (Hs : search_radius_ (exampleDenoiser 8 0%Qc 1 4 1) = 4)
    by reflexivity.
  assert (Hp : patch_radius_ (exampleDenoiser 8 0%Qc 1 4 1) ≤
               search_radius_ (exampleDenoiser 8 0%Qc 1 4 1))
    by (simpl; lia).
  split; [exact Hs|]. split; [exact Hp|].
  exact (proj2 (chunk_grid_32_radius_4 (exampleDenoiser 8 0%Qc 1 4 1) Hs Hp)).
Defined.

(** C8 as stated fails for patch radius 4, a valid configuration: the grid
    is (2,2), not (3,3). *)
Lemma chunk_grid_patch_radius_4 :
  patch_radius_ (exampleDenoiser 8 0%Qc 4 4 1) ≤
    search_radius_ (exampleDenoiser 8 0%Qc 4 4 1) ∧
  getChunkSize (exampleDenoiser 8 0%Qc 4 4 1) = 12 ∧
  getChunkResolution (exampleDenoiser 8 0%Qc 4 4 1) (32, 32) = (2, 2) ∧
  getChunkResolution (exampleDenoiser 8 0%Qc 4 4 1) (32, 32) ≠ (3, 3).
Proof. repeat split; [simpl; lia | done]. Qed.

(** ** The pixel marker *)

Lemma vec_resize_nil {A : Type} (n : uint) (d : A) :
  vec_resize n d [] = replicate n d.
Proof. unfold vec_resize. by rewrite take_nil, Nat.sub_0_r. Qed.

Lemma PixelMarker_new_table (k : uint) (system : System) :
  marker_table_ (PixelMarker_new k system) =
    replicate (((imageResolution system).1 * (imageResolution system).2) / 2 ^ k)
      0%N.
Proof.
  unfold PixelMarker_new. cbn [marker_table_].
  by rewrite vec_resize_nil, Nat.shiftr_div_pow2.
Qed.

Lemma isMarked_is_Some (k : uint) (m : PixelMarker) (index : uint) :
  is_Some (isMarked k m index) ↔ index / 2 ^ k < length (marker_table_ m).
Proof.
  unfold isMarked, vec_get. rewrite Nat.shiftr_div_pow2, <- lookup_lt_is_Some.
  destruct (marker_table_ m !! _); simpl; split; intros [? ?]; eauto; done.
Qed.

Lemma mark_is_Some (k : uint) (m : PixelMarker) (index : uint) :
  is_Some (mark k m index) ↔ index / 2 ^ k < length (marker_table_ m).
Proof.
  unfold mark, vec_update. rewrite Nat.shiftr_div_pow2, <- lookup_lt_is_Some.
  destruct (marker_table_ m !! _); simpl; split; intros [? ?]; eauto; done.
Qed.

(** The marker has a word for every pixel exactly when the number of pixels
    is a multiple of the number of bits of a word. *)
Lemma PixelMarker_covers_image (k : uint) (system : System) :
  let n := (imageResolution system).1 * (imageResolution system).2 in
  (∀ index, index < n → is_Some (isMarked k (PixelMarker_new k system) index))
  ↔ n mod 2 ^ k = 0.
Proof.
  intros n. pose proof (Nat.pow_nonzero 2 k ltac:(lia)) as Hk.
  pose proof (Nat.div_mod_eq n (2 ^ k)) as Hn.
  split.
  - intros Hall. destruct (decide (n mod 2 ^ k = 0)) as [|Hne]; [done|].
    assert (Hlt : n - 1 < n) by lia.
    apply Hall in Hlt. apply isMarked_is_Some in Hlt.
    rewrite PixelMarker_new_table, length_replicate in Hlt. fold n in Hlt.
    exfalso. apply (Nat.lt_irrefl (n / 2 ^ k)).
    eapply Nat.le_lt_trans; [|exact Hlt].
    apply Nat.div_le_lower_bound; lia.
  - intros Hmod index Hlt. apply isMarked_is_Some.
    rewrite PixelMarker_new_table, length_replicate. fold n.
    apply Nat.Div0.div_lt_upper_bound; lia.
Qed.

(** C10, at an image of 65 by 65 pixels and for every word size of at least
    two bits: the constructor allocates [(65 * 65) >> kMarkerRepBits] words,
    and [isMarked] and [mark] at the last pixel, index 4224, leave the table. *)
Theorem marker_word_of_last_pixel_out_of_bounds (k : uint) :
  length (marker_table_ (PixelMarker_new (S k) (exampleSystem 65 65))) =
    Nat.shiftr (65 * 65) (S k) ∧
  4224 < 65 * 65 ∧
  Nat.shiftr 4224 (S k) =
    length (marker_table_ (PixelMarker_new (S k) (exampleSystem 65 65))) ∧
  isMarked (S k) (PixelMarker_new (S k) (exampleSystem 65 65)) 4224 = None ∧
  mark (S k) (PixelMarker_new (S k) (exampleSystem 65 65)) 4224 = None.
Proof.
  pose proof (Nat.pow_nonzero 2 k ltac:(lia)) as Hk.
  assert (Hlen : length (marker_table_
                   (PixelMarker_new (S k) (exampleSystem 65 65))) =
                 2112 / 2 ^ k).
  { rewrite PixelMarker_new_table, length_replicate. cbn [imageResolution
      exampleSystem fst snd]. rewrite Nat.pow_succ_r', <- Nat.Div0.div_div.
    f_equal. }
  assert (Hidx : 4224 / 2 ^ S k = 2112 / 2 ^ k).
  { rewrite Nat.pow_succ_r', <- Nat.Div0.div_div. f_equal. }
  split; [|split; [|split; [|split]]].
  - rewrite Hlen, Nat.shiftr_div_pow2, Nat.pow_succ_r', <- Nat.Div0.div_div.
    f_equal.
  - lia.
  - by rewrite Nat.shiftr_div_pow2, Hidx, Hlen.
  - apply eq_None_not_Some. rewrite isMarked_is_Some, Hidx, Hlen. lia.
  - apply eq_None_not_Some. rewrite mark_is_Some, Hidx, Hlen. lia.
Qed.

(** ** Downscaling *)

(** C3, at a two by two image with two histogram bins: the resolution is
    halved and the bins are kept, but the entry of histogram bin 1 of the
    low-resolution instance is (3 + 4 + 3 + 4) / 4 = 7/2, an average over the
    last row of bin 0 of the high-resolution table, where the claim has
    (10 + 20 + 30 + 40) / 4 = 25, the average of bin 1. *)
Theorem downscaleOf_second_bin_reads_first_bin :
  option_map
    (λ p, (resolution_ p, histogram_bins_ p, num_of_samples_ p,
           table_this (sample_value_table_ p),
           table_this (histogram_table_ p)))
    (downscaleOf 1 (exampleSystem 2 2) twoBinParameters Parameters_new) =
  Some ((1, 1), 2, 4, [[(1 # 1)%Q]], [[(5 # 2)%Q]; [(7 # 2)%Q]]).
Proof. vm_compute. reflexivity. Qed.

(** ** Loops *)

Section Loops.

Context {A S : Type}.
Implicit Types (l : list A) (body : A → S → option S) (s : S).

Lemma forM_app l1 l2 body s :
  forM (l1 ++ l2) body s = forM l1 body s ≫= forM l2 body.
Proof.
  revert s. induction l1 as [|x l1 IH]; intros s; simpl; [done|].
  destruct (body x s) as [s1|]; simpl; [apply IH | done].
Qed.

Lemma forM_snoc l x body s s' :
  forM (l ++ [x]) body s = Some s' ↔
  ∃ s1, forM l body s = Some s1 ∧ body x s1 = Some s'.
Proof.
  rewrite forM_app. destruct (forM l body s) as [s1|]; simpl.
  - destruct (body x s1) as [s2|] eqn:Hb; simpl; split.
    + intros [= <-]. eauto.
    + intros (? & [= <-] & Hs). by rewrite Hb in Hs.
    + done.
    + intros (? & [= <-] & Hs). by rewrite Hb in Hs.
  - split; [done | intros (? & ? & ?); done].
Qed.

(** A property that every iteration preserves holds after the loop. *)
Lemma forM_invariant (I : S → Prop) l body s s' :
  (∀ x s1 s2, x ∈ l → I s1 → body x s1 = Some s2 → I s2) →
  I s → forM l body s = Some s' → I s'.
Proof.
  revert s. induction l as [|x l IH]; intros s Hstep Hs Hrun; simpl in Hrun.
  - by injection Hrun as <-.
  - destruct (body x s) as [s1|] eqn:Hb; [|done]. simpl in Hrun.
    apply (IH s1); [| |done].
    + intros y ? ? Hy. apply Hstep. by right.
    + eapply Hstep; [|done..]. by left.
Qed.

(** What the iteration for [x] establishes, and no iteration destroys,
    holds after the loop; an invariant [I] may be used along the way. *)
Lemma forM_visit (I Q : S → Prop) l body s s' x :
  x ∈ l →
  (∀ y s1 s2, y ∈ l → I s1 → body y s1 = Some s2 → I s2 ∧ (Q s1 → Q s2)) →
  (∀ s1 s2, I s1 → body x s1 = Some s2 → Q s2) →
  I s → forM l body s = Some s' → Q s'.
Proof.
  revert s. induction l as [|y l IH]; intros s Hx Hstep Hest Hs Hrun.
  - by apply elem_of_nil in Hx.
  - simpl in Hrun. destruct (body y s) as [s1|] eqn:Hb; [|done].
    simpl in Hrun.
    destruct (Hstep y s s1 ltac:(by left) Hs Hb) as [Hs1 _].
    apply elem_of_cons in Hx as [->|Hx].
    + assert (HQ : Q s1) by eauto.
      revert Hrun. apply (forM_invariant (λ t, I t ∧ Q t)); [|done].
      intros z t1 t2 Hz [Ht1 HQ1] Hbz.
      destruct (Hstep z t1 t2 ltac:(by right) Ht1 Hbz). auto.
    + apply (IH s1); try done.
      intros z t1 t2 Hz. apply Hstep. by right.
Qed.

(** A loop over a range is the loop over its indices. *)
Lemma for_range_forM (b e : uint) (body : uint → S → option S) (s : S) :
  for_range b e body s = forM (seq b (e - b)) body s.
Proof. reflexivity. Qed.

End Loops.

Lemma elem_of_seq_range (b e i : uint) : i ∈ seq b (e - b) ↔ b ≤ i < e.
Proof. rewrite elem_of_seq. lia. Qed.

(** ** The scale loop *)

Section ScaleLoop.

Variable self : BayesianCollaborativeDenoiser.
Variable kDimension : uint.
Variable system : System.




End ScaleLoop.

(** ** Tiles, patches and search windows *)

Lemma elem_of_tile_pixels (t : RenderingTile) (pixel : Index2d) :
  pixel ∈ tile_pixels t ↔
  ((tile_begin t).1 ≤ pixel.1 < (tile_end t).1) ∧
  ((tile_begin t).2 ≤ pixel.2 < (tile_end t).2).
Proof.
  unfold tile_pixels, tile_width, tile_height.
  rewrite list_elem_of_bind. destruct pixel as [x y]. simpl. split.
  - intros (y' & Hx & Hy). apply list_elem_of_fmap in Hx as (x' & [= -> ->] & Hx).
    apply elem_of_seq in Hx, Hy. lia.
  - intros [Hx Hy]. exists y. split.
    + apply list_elem_of_fmap. exists x. split; [done|]. apply elem_of_seq. lia.
    + apply elem_of_seq. lia.
Qed.

Lemma getIndex_inj (t : RenderingTile) (p1 p2 : Index2d) :
  p1 ∈ tile_pixels t → p2 ∈ tile_pixels t →
  getIndex t p1 = getIndex t p2 → p1 = p2.
Proof.
  rewrite !elem_of_tile_pixels. unfold getIndex, tile_width.
  destruct p1 as [x1 y1], p2 as [x2 y2], t as [[bx by_] [ex ey]]. simpl.
  intros [Hx1 Hy1] [Hx2 Hy2] Heq.
  assert (y1 = y2) by nia. subst. f_equal. nia.
Qed.

Lemma getIndex_lt (t : RenderingTile) (pixel : Index2d) :
  pixel ∈ tile_pixels t → getIndex t pixel < numOfPixels t.
Proof.
  rewrite elem_of_tile_pixels. unfold getIndex, numOfPixels, tile_width,
    tile_height.
  destruct pixel as [x y], t as [[bx by_] [ex ey]]. simpl. nia.
Qed.

Section Geometry.

Variable self : BayesianCollaborativeDenoiser.

(** A pixel that is at least a patch radius away from every border. *)
Definition interior (res : Index2d) (pixel : Index2d) : Prop :=
  patch_radius_ self ≤ pixel.1 ∧ pixel.1 + patch_radius_ self < res.1 ∧
  patch_radius_ self ≤ pixel.2 ∧ pixel.2 + patch_radius_ self < res.2.

(** An offset within a patch. *)
Definition inPatch (patch_offset : Index2d) : Prop :=
  patch_offset.1 ≤ 2 * patch_radius_ self ∧
  patch_offset.2 ≤ 2 * patch_radius_ self.

Lemma searchWindow_interior (res main_pixel pixel : Index2d) :
  pixel ∈ tile_pixels (makeSearchWindow self res main_pixel) →
  interior res pixel.
Proof.
  rewrite elem_of_tile_pixels. unfold makeSearchWindow, interior. simpl. lia.
Qed.

Lemma searchWindow_main (res main_pixel : Index2d) :
  interior res main_pixel →
  main_pixel ∈ tile_pixels (makeSearchWindow self res main_pixel).
Proof.
  rewrite elem_of_tile_pixels. unfold makeSearchWindow, interior. simpl. lia.
Qed.

Lemma chunkTile_interior (res chunk_position tile_position pixel : Index2d) :
  pixel ∈ tile_pixels (makeChunkTile self res chunk_position tile_position) →
  interior res pixel.
Proof.
  rewrite elem_of_tile_pixels. unfold makeChunkTile, interior. simpl. lia.
Qed.


(** The patch pixel of an interior pixel lies in the image, and every pixel
    of the image is a patch pixel of an interior pixel. *)
Lemma patchPixel_in_image (res pixel patch_offset : Index2d) :
  interior res pixel → inPatch patch_offset →
  (patchPixel self pixel patch_offset).1 < res.1 ∧
  (patchPixel self pixel patch_offset).2 < res.2.
Proof. unfold interior, inPatch, patchPixel. simpl. lia. Qed.

Lemma pixelIndex_lt (res pixel : Index2d) :
  pixel.1 < res.1 → pixel.2 < res.2 → pixelIndex res pixel < res.1 * res.2.
Proof. unfold pixelIndex. nia. Qed.

Lemma pixelIndex_inj (res p1 p2 : Index2d) :
  p1.1 < res.1 → p2.1 < res.1 →
  pixelIndex res p1 = pixelIndex res p2 → p1 = p2.
Proof.
  unfold pixelIndex. destruct p1 as [x1 y1], p2 as [x2 y2]. simpl.
  intros H1 H2 Heq. assert (y1 = y2) by nia. subst. f_equal. nia.
Qed.


(** The offsets of a patch are those of the patch numbers. *)
Lemma patchOffset_cover (patch_offset : Index2d) :
  inPatch patch_offset →
  ∃ patch_number,
    patch_number < getNumOfPatchPixels self ∧
    patchOffset self patch_number = patch_offset.
Proof.
  intros [H1 H2]. destruct patch_offset as [ox oy]. simpl in *.
  exists (ox + (2 * patch_radius_ self + 1) * oy).
  unfold getNumOfPatchPixels, patchOffset. split.
  - rewrite Nat.pow_2_r. nia.
  - rewrite (Nat.mul_comm _ oy), Nat.Div0.mod_add, Nat.div_add by lia.
    rewrite Nat.mod_small, Nat.div_small by lia. f_equal.
Qed.

Lemma patchOffset_inPatch (patch_number : uint) :
  patch_number < getNumOfPatchPixels self →
  inPatch (patchOffset self patch_number).
Proof.
  unfold getNumOfPatchPixels, patchOffset, inPatch. rewrite Nat.pow_2_r.
  intros Hlt. cbn [fst snd].
  pose proof (Nat.mod_upper_bound patch_number (2 * patch_radius_ self + 1)
                ltac:(lia)).
  assert (patch_number / (2 * patch_radius_ self + 1) <
          2 * patch_radius_ self + 1)
    by (apply Nat.Div0.div_lt_upper_bound; lia).
  lia.
Qed.

Lemma patchPixel_center (pixel : Index2d) :
  patchPixel self pixel (patch_radius_ self, patch_radius_ self) = pixel.
Proof. unfold patchPixel. destruct pixel. simpl. f_equal; lia. Qed.

End Geometry.

(** ** Marking pixels *)

(** The [static_assert] of the constructor holds for words of at least eight
    bits, and then the mask selects the bit of a pixel within its word. *)
Lemma marker_mask_ones (k : uint) : 3 ≤ k → marker_mask k = Nat.ones k.
Proof.
  intros Hk. unfold marker_mask, marker_bytes.
  rewrite Nat.ones_equiv.
  replace k with (3 + (k - 3)) by lia. rewrite Nat.pow_add_r.
  change (2 ^ 3) with 8. rewrite (Nat.mul_comm 8), Nat.div_mul by lia. lia.
Qed.

Lemma marker_position_inj (k i j : uint) :
  3 ≤ k →
  Nat.shiftr i k = Nat.shiftr j k →
  Nat.land i (marker_mask k) = Nat.land j (marker_mask k) → i = j.
Proof.
  intros Hk. rewrite !Nat.shiftr_div_pow2, marker_mask_ones, !Nat.land_ones by done.
  intros Hdiv Hmod.
  rewrite (Nat.div_mod_eq i (2 ^ k)), (Nat.div_mod_eq j (2 ^ k)). congruence.
Qed.

Lemma mark_length (k : uint) (m m' : PixelMarker) (i : uint) :
  mark k m i = Some m' →
  length (marker_table_ m') = length (marker_table_ m).
Proof.
  unfold mark, vec_update. intros Hm.
  destruct (marker_table_ m !! _); [|done]. injection Hm as <-.
  simpl. apply length_insert.
Qed.

(** [mark] sets the bit of its pixel and of no other. *)
Lemma mark_sound (k : uint) (m m' : PixelMarker) (i j : uint) :
  3 ≤ k → mark k m i = Some m' →
  isMarked k m' j = Some true → isMarked k m j = Some true ∨ j = i.
Proof.
  intros Hk Hm. unfold mark, vec_update in Hm. unfold isMarked, vec_get.
  destruct (marker_table_ m !! Nat.shiftr i k) as [w|] eqn:Hw; [|done].
  injection Hm as <-. cbn [marker_table_].
  destruct (decide (Nat.shiftr i k = Nat.shiftr j k)) as [Heq|Hne].
  - rewrite <- Heq, list_lookup_insert_eq by (by eapply lookup_lt_Some).
    rewrite Hw. simpl. rewrite N.setbit_eqb.
    destruct (N.eqb_spec (N.of_nat (Nat.land i (marker_mask k)))
                (N.of_nat (Nat.land j (marker_mask k)))) as [Hbit|Hbit].
    + intros _. right. symmetry. apply (marker_position_inj k); [done..|lia].
    + simpl. auto.
  - rewrite list_lookup_insert_ne by done. auto.
Qed.

Lemma mark_marked (k : uint) (m m' : PixelMarker) (i : uint) :
  mark k m i = Some m' → isMarked k m' i = Some true.
Proof.
  intros Hm. unfold mark, vec_update in Hm. unfold isMarked, vec_get.
  destruct (marker_table_ m !! Nat.shiftr i k) as [w|] eqn:Hw; [|done].
  injection Hm as <-. cbn [marker_table_].
  rewrite list_lookup_insert_eq by (by eapply lookup_lt_Some). simpl.
  by rewrite N.setbit_eq.
Qed.

Lemma clear_not_marked (k : uint) (m : PixelMarker) (i : uint) :
  isMarked k (clear m) i ≠ Some true.
Proof.
  unfold isMarked, clear, vec_get. cbn [marker_table_].
  rewrite list_lookup_fmap. destruct (marker_table_ m !! _); simpl; done.
Qed.

(** ** Estimate counters *)

(** The pixel has received an estimate. *)
Definition counted (counter : list Z) (index : uint) : Prop :=
  ∃ count, counter !! index = Some count ∧ (1 ≤ count)%Z.

Lemma counted_mono (c c' : list Z) (i : uint) :
  Forall2 Z.le c c' → counted c i → counted c' i.
Proof.
  intros Hle (z & Hz & Hpos).
  destruct (Forall2_lookup_l _ _ _ _ _ Hle Hz) as (z' & Hz' & Hzz').
  exists z'. split; [done | lia].
Qed.

Lemma Forall2_Zle_refl (c : list Z) : Forall2 Z.le c c.
Proof. apply Forall_Forall2_diag, Forall_forall. intros. lia. Qed.

Lemma Forall2_Zle_trans (c1 c2 c3 : list Z) :
  Forall2 Z.le c1 c2 → Forall2 Z.le c2 c3 → Forall2 Z.le c1 c3.
Proof. apply Forall2_trans. intros. lia. Qed.

Lemma counter_increment (c c' : list Z) (i : uint) :
  vec_update c i Z.succ = Some c' →
  Forall2 Z.le c c' ∧
  ∃ count, c !! i = Some count ∧ c' !! i = Some (Z.succ count).
Proof.
  unfold vec_update. destruct (c !! i) as [z|] eqn:Hz; [|done].
  intros [= <-]. split.
  - apply Forall2_same_length_lookup. split; [by rewrite length_insert|].
    intros j x y Hx Hy. destruct (decide (i = j)) as [->|Hne].
    + rewrite list_lookup_insert_eq in Hy by (by eapply lookup_lt_Some).
      simplify_eq. lia.
    + rewrite list_lookup_insert_ne in Hy by done. simplify_eq. lia.
  - exists z. split; [done|].
    apply list_lookup_insert_eq. by eapply lookup_lt_Some.
Qed.

Lemma counter_increment_counted (c0 c c' : list Z) (i : uint) :
  Forall (Z.le 0) c0 → Forall2 Z.le c0 c →
  vec_update c i Z.succ = Some c' → counted c' i.
Proof.
  intros Hnonneg Hle Hupd.
  destruct (counter_increment _ _ _ Hupd) as (_ & z & Hz & Hz').
  exists (Z.succ z). split; [done|].
  destruct (Forall2_lookup_r _ _ _ _ _ Hle Hz) as (z0 & Hz0 & Hzz).
  pose proof (Forall_lookup_1 _ _ _ _ Hnonneg Hz0). lia.
Qed.

(** ** Selecting similar patches *)

Lemma mask_count_set (m : list bool) (i : uint) :
  m !! i = Some false → mask_count (<[i := true]> m) = S (mask_count m).
Proof.
  unfold mask_count. revert i. induction m as [|b m IH]; intros [|i] Hi;
    simplify_eq/=.
  - rewrite !filter_cons. by repeat case_decide.
  - rewrite !filter_cons. case_decide; simpl; by rewrite IH.
Qed.

Lemma mask_count_replicate_false (n : uint) :
  mask_count (replicate n false) = 0.
Proof.
  unfold mask_count. induction n as [|n IH]; [done|]. simpl.
  rewrite filter_cons. by case_decide.
Qed.

Section Similarity.

Variable self : BayesianCollaborativeDenoiser.
Variable kDimension : uint.
Variable parameters : Parameters.
Variable main_pixel : Index2d.

(** The distance of a pixel of the search window to the main pixel: exactly
    zero for the main pixel itself, the histogram distance of the two patches
    otherwise. *)
Definition patchDistance (neighbor_pixel : Index2d) : option Float :=
  if decide (neighbor_pixel ≠ main_pixel)
  then calcHistogramPatchDistance self kDimension parameters main_pixel
         neighbor_pixel
  else Some 0%Qc.

(** The distance is at most the threshold. *)
Definition withinThreshold (neighbor_pixel : Index2d) : Prop :=
  ∃ d, patchDistance neighbor_pixel = Some d ∧
       (d ≤ histogram_distance_threshold_ self)%Qc.

(** The loop of [selectSimilarPatches]. *)
Definition selectLoop (search_window : RenderingTile) (l : list Index2d)
    (similar_mask : list bool) : option (list bool) :=
  forM l (λ neighbor_pixel similar_mask,
    d ← patchDistance neighbor_pixel;
    if decide (d ≤ histogram_distance_threshold_ self)%Qc then
      let index := getIndex search_window neighbor_pixel in
      mask_set similar_mask index
    else Some similar_mask) similar_mask.

Lemma selectSimilarPatches_loop :
  selectSimilarPatches self kDimension parameters main_pixel =
    let similar_mask := replicate (kSimilarPatchMaskSize self) false in
    let search_window :=
      makeSearchWindow self (resolution_ parameters) main_pixel in
    if decide (numOfPixels search_window < length similar_mask)
    then selectLoop search_window (tile_pixels search_window) similar_mask
    else None.
Proof. reflexivity. Qed.

Lemma selectLoop_spec (search_window : RenderingTile) (l : list Index2d)
    (m m' : list bool) :
  selectLoop search_window l m = Some m' →
  length m' = length m ∧
  (∀ pixel, pixel ∈ l → is_Some (patchDistance pixel)) ∧
  (∀ i, m' !! i = Some true ↔
        m !! i = Some true ∨
        ∃ pixel, pixel ∈ l ∧ getIndex search_window pixel = i ∧
                 withinThreshold pixel).
Proof.
  unfold selectLoop. revert m. induction l as [|x l IH]; intros m Hrun.
  - simpl in Hrun. injection Hrun as <-. split; [done|]. split.
    + intros ? []%elem_of_nil.
    + intros i. split; [auto|]. intros [?|(? & []%elem_of_nil & _)]. done.
  - simpl in Hrun.
    destruct (patchDistance x) as [d|] eqn:Hd; [|done]. simpl in Hrun.
    match type of Hrun with
    | context [mbind _ ?o] => destruct o as [m1|] eqn:Hstep
    end; [|done].
    simpl in Hrun. destruct (IH m1 Hrun) as (Hlen & Hdist & Hbits).
    assert (Hm1 : length m1 = length m ∧
              ∀ i, m1 !! i = Some true ↔
                   m !! i = Some true ∨
                   (getIndex search_window x = i ∧ withinThreshold x)).
    { case_decide as Hle.
      - unfold mask_set in Hstep. case_decide as Hlt; [|done].
        injection Hstep as <-. split; [apply length_insert|]. intros i.
        destruct (decide (getIndex search_window x = i)) as [<-|Hne].
        + rewrite list_lookup_insert_eq by done. split; [|done].
          intros _. right. split; [done|]. by exists d.
        + rewrite list_lookup_insert_ne by done. split; [auto|].
          intros [?|[? _]]; done.
      - injection Hstep as <-. split; [done|]. intros i. split; [auto|].
        intros [?|[_ (d' & Hd' & Hle')]]; [done|].
        rewrite Hd in Hd'. by simplify_eq. }
    destruct Hm1 as [Hlen1 Hbits1]. split; [congruence|]. split.
    + intros pixel [->|Hin]%elem_of_cons; [by rewrite Hd | by apply Hdist].
    + intros i. rewrite Hbits, Hbits1. split.
      * intros [[?|[? ?]]|(p & ? & ? & ?)]; [by left|right..].
        -- exists x. split; [by left | done].
        -- exists p. split; [by right | done].
      * intros [?|(p & [->|?]%elem_of_cons & ? & ?)]; [by left; left|..].
        -- left. by right.
        -- right. by exists p.
Qed.

(** Frame and count of the loop: bits are only set at the indices of the
    pixels visited, and each set bit counts once. *)
Lemma selectLoop_count (search_window : RenderingTile) (l : list Index2d)
    (m m' : list bool) :
  selectLoop search_window l m = Some m' →
  NoDup (getIndex search_window <$> l) →
  (∀ pixel, pixel ∈ l → m !! getIndex search_window pixel = Some false) →
  mask_count m' =
    mask_count m +
    length (filter (λ pixel, m' !! getIndex search_window pixel = Some true) l).
Proof.
  revert m. induction l as [|x l IH]; intros m Hrun Hnodup Hfalse.
  - unfold selectLoop in Hrun. simpl in Hrun. injection Hrun as <-.
    rewrite filter_nil. simpl. lia.
  - pose proof Hrun as Hrun0.
    unfold selectLoop in Hrun. simpl in Hrun.
    destruct (patchDistance x) as [d|] eqn:Hd; [|done]. simpl in Hrun.
    match type of Hrun with
    | context [mbind _ ?o] => destruct o as [m1|] eqn:Hstep
    end; [|done].
    simpl in Hrun. fold (selectLoop search_window l m1) in Hrun.
    rewrite fmap_cons in Hnodup.
    apply list.NoDup_cons in Hnodup as [Hx Hnodup].
    assert (Hx' : ∀ pixel, pixel ∈ l →
                    getIndex search_window pixel ≠ getIndex search_window x).
    { intros pixel Hin Heq. apply Hx. rewrite <- Heq.
      by apply list_elem_of_fmap_2. }
    destruct (selectLoop_spec _ _ _ _ Hrun) as (_ & _ & Hbits).
    assert (Hkeep : m' !! getIndex search_window x = Some true ↔
                    m1 !! getIndex search_window x = Some true).
    { rewrite Hbits. split; [|auto]. intros [?|(p & Hp & Hpe & _)]; [done|].
      by apply Hx' in Hp. }
    rewrite filter_cons.
    case_decide as Hle.
    + unfold mask_set in Hstep. case_decide as Hlt; [|done].
      injection Hstep as <-.
      rewrite (IH (<[getIndex search_window x := true]> m)); [|done..|].
      * rewrite mask_count_set by (apply Hfalse; by left).
        rewrite decide_True; [simpl; lia|].
        apply Hkeep. by apply list_lookup_insert_eq.
      * intros pixel Hin. rewrite list_lookup_insert_ne by (symmetry; auto).
        apply Hfalse. by right.
    + injection Hstep as <-.
      rewrite (IH m); [|done..|].
      * rewrite decide_False; [done|].
        rewrite Hkeep, (Hfalse x) by (by left). done.
      * intros pixel Hin. apply Hfalse. by right.
Qed.

Lemma tile_pixels_NoDup_index (t : RenderingTile) :
  NoDup (getIndex t <$> tile_pixels t).
Proof.
  apply NoDup_fmap_2_strong.
  - intros p1 p2 H1 H2. by apply getIndex_inj.
  - unfold tile_pixels. apply NoDup_bind.
    + intros y1 y2 p _ _ (x1 & -> & _)%list_elem_of_fmap
        (x2 & [= _ ->] & _)%list_elem_of_fmap. done.
    + intros y _. apply NoDup_fmap_2; [|apply NoDup_seq].
      intros x1 x2 [= ->]. done.
    + apply NoDup_seq.
Qed.

End Similarity.

Section SimilarityTheorem.

Variable self : BayesianCollaborativeDenoiser.
Variable kDimension : uint.
Variable parameters : Parameters.
Variable main_pixel : Index2d.

Let search_window :=
  makeSearchWindow self (resolution_ parameters) main_pixel.

Lemma selectLoop_is_Some (l : list Index2d) (m : list bool) :
  (∀ pixel, pixel ∈ l →
     is_Some (patchDistance self kDimension parameters main_pixel pixel) ∧
     getIndex search_window pixel < length m) →
  is_Some (selectLoop self kDimension parameters main_pixel search_window l m).
Proof.
  unfold selectLoop. revert m. induction l as [|x l IH]; intros m Hl.
  - by eexists.
  - simpl. destruct (Hl x ltac:(by left)) as [[d Hd] Hlt]. rewrite Hd. simpl.
    case_decide.
    + unfold mask_set. rewrite decide_True by done. simpl. apply IH.
      intros pixel Hin. rewrite length_insert. apply Hl. by right.
    + simpl. apply IH. intros pixel Hin. apply Hl. by right.
Qed.

(** C6: for a main pixel at least a patch radius away from every border and
    a threshold that is not negative, the mask that [selectSimilarPatches]
    returns has the bit of a pixel of the search window set if and only if
    its distance, exactly zero for the main pixel itself and the patch
    histogram distance otherwise, is at most the threshold; the bit of the
    main pixel is set, and [count()] of the mask is the number of pixels of
    the window whose bit is set.  A mask is returned exactly when the search
    window fits the mask and every patch distance is defined. *)
Theorem selectSimilarPatches_mask :
  interior self (resolution_ parameters) main_pixel →
  (0 ≤ histogram_distance_threshold_ self)%Qc →
  (is_Some (selectSimilarPatches self kDimension parameters main_pixel) ↔
   numOfPixels search_window < kSimilarPatchMaskSize self ∧
   ∀ pixel, pixel ∈ tile_pixels search_window →
     is_Some (patchDistance self kDimension parameters main_pixel pixel)) ∧
  ∀ similar_mask,
    selectSimilarPatches self kDimension parameters main_pixel =
      Some similar_mask →
    (∀ pixel, pixel ∈ tile_pixels search_window →
       similar_mask !! getIndex search_window pixel = Some true ↔
       withinThreshold self kDimension parameters main_pixel pixel) ∧
    similar_mask !! getIndex search_window main_pixel = Some true ∧
    mask_count similar_mask =
      length (filter (λ pixel, similar_mask !! getIndex search_window pixel =
                               Some true)
                (tile_pixels search_window)).
Proof.
  intros Hmain Hthreshold.
  rewrite selectSimilarPatches_loop. cbn zeta. fold search_window.
  rewrite length_replicate. split.
  - split.
    + case_decide as Hfit; [|by intros [? ?]]. intros [similar_mask Hrun].
      split; [done|].
      by destruct (selectLoop_spec _ _ _ _ _ _ _ _ Hrun) as (_ & ? & _).
    + intros [Hfit Hdist]. rewrite decide_True by done.
      apply selectLoop_is_Some. intros pixel Hin.
      split; [by apply Hdist|]. rewrite length_replicate.
      apply getIndex_lt in Hin. lia.
  - intros similar_mask Hrun. case_decide as Hfit; [|done].
    destruct (selectLoop_spec _ _ _ _ _ _ _ _ Hrun) as (_ & _ & Hbits).
    assert (Hpixels : ∀ pixel, pixel ∈ tile_pixels search_window →
              similar_mask !! getIndex search_window pixel = Some true ↔
              withinThreshold self kDimension parameters main_pixel pixel).
    { intros pixel Hin. rewrite Hbits. split.
      - intros [Hinit|(pixel' & Hin' & Heq & Hwithin)].
        + apply lookup_replicate in Hinit as [? _]. done.
        + by rewrite <- (getIndex_inj _ _ _ Hin' Hin Heq).
      - intros Hwithin. right. by exists pixel. }
    split; [done|]. split.
    + apply Hpixels; [by apply searchWindow_main|].
      exists 0%Qc. split; [|done]. unfold patchDistance.
      by rewrite decide_False by (intros Hne; by apply Hne).
    + rewrite (selectLoop_count _ _ _ _ _ _ _ _ Hrun).
      * by rewrite mask_count_replicate_false.
      * apply tile_pixels_NoDup_index.
      * intros pixel Hin. apply lookup_replicate. split; [done|].
        apply getIndex_lt in Hin. lia.
Qed.

(** Whenever [selectSimilarPatches] returns for an interior main pixel and a
    threshold that is not negative, the main pixel is in the mask. *)
Lemma selectSimilarPatches_main (similar_mask : list bool) :
  interior self (resolution_ parameters) main_pixel →
  (0 ≤ histogram_distance_threshold_ self)%Qc →
  selectSimilarPatches self kDimension parameters main_pixel =
    Some similar_mask →
  similar_mask !! getIndex search_window main_pixel = Some true.
Proof.
  intros Hmain Hthreshold. rewrite selectSimilarPatches_loop. cbn zeta.
  fold search_window. case_decide; [|done]. intros Hrun.
  destruct (selectLoop_spec _ _ _ _ _ _ _ _ Hrun) as (_ & _ & Hbits).
  apply Hbits. right. exists main_pixel.
  split; [by apply searchWindow_main|]. split; [done|].
  exists 0%Qc. split; [|done]. unfold patchDistance.
  by rewrite decide_False by (intros Hne; by apply Hne).
Qed.

End SimilarityTheorem.

(** ** Loops that only add *)

Section Covering.

Context {A S : Type}.

(** [I] is an invariant, [R] relates a state to a later one, and [C x] is
    what the iteration for [x] achieves and later states keep. *)
Lemma forM_cover (I : S → Prop) (R : S → S → Prop) (C : A → S → Prop)
    (l : list A) (body : A → S → option S) (s s' : S) :
  (∀ t, R t t) →
  (∀ t1 t2 t3, R t1 t2 → R t2 t3 → R t1 t3) →
  (∀ x t1 t2, R t1 t2 → C x t1 → C x t2) →
  (∀ x t1 t2, x ∈ l → I t1 → body x t1 = Some t2 →
     I t2 ∧ R t1 t2 ∧ C x t2) →
  I s → forM l body s = Some s' →
  I s' ∧ R s s' ∧ ∀ x, x ∈ l → C x s'.
Proof.
  intros Hrefl Htrans Hkeep. revert s.
  induction l as [|y l IH]; intros s Hstep Hs Hrun; simpl in Hrun.
  - injection Hrun as <-. split; [done|]. split; [done|].
    intros ? []%elem_of_nil.
  - destruct (body y s) as [s1|] eqn:Hb; [|done]. simpl in Hrun.
    destruct (Hstep y s s1 ltac:(by left) Hs Hb) as (Hs1 & HR1 & HC1).
    destruct (IH s1) as (Hs' & HR' & HC'); [|done..|].
    { intros x t1 t2 Hx. apply Hstep. by right. }
    split; [done|]. split; [by eapply Htrans|].
    intros x [->|Hx]%elem_of_cons; [by eapply Hkeep | by apply HC'].
Qed.


End Covering.

(** ** What a pass changes *)

(** Two [Parameters] that differ at most in their denoised values, of which
    there are as many. *)
Definition sameInput (p p' : Parameters) : Prop :=
  p' = set_denoised_value_table p (denoised_value_table_ p') ∧
  length (denoised_value_table_ p') = length (denoised_value_table_ p).

Lemma sameInput_refl (p : Parameters) : sameInput p p.
Proof. split; [by destruct p | done]. Qed.

Lemma sameInput_trans (p1 p2 p3 : Parameters) :
  sameInput p1 p2 → sameInput p2 p3 → sameInput p1 p3.
Proof.
  unfold sameInput. intros [H12 Hlen12] [H23 Hlen23]. split; [|congruence].
  rewrite H23 at 1. rewrite H12 at 1. by destruct p1.
Qed.

Lemma sameInput_resolution (p p' : Parameters) :
  sameInput p p' → resolution_ p' = resolution_ p.
Proof. intros [-> _]. done. Qed.

Lemma sameInput_sample_values (p p' : Parameters) :
  sameInput p p' → sample_value_table_ p' = sample_value_table_ p.
Proof. intros [-> _]. done. Qed.

Lemma sameInput_covariance_factors (p p' : Parameters) :
  sameInput p p' → covariance_factor_table_ p' = covariance_factor_table_ p.
Proof. intros [-> _]. done. Qed.

Lemma sameInput_histogram (p p' : Parameters) :
  sameInput p p' →
  histogram_table_ p' = histogram_table_ p ∧
  histogram_bins_ p' = histogram_bins_ p.
Proof. intros [-> _]. done. Qed.

(** ** Loops that update one entry per iteration *)

Lemma vec_update_Some {T : Type} (t t' : list T) (i : uint) (f : T → T) :
  vec_update t i f = Some t' ↔ ∃ old, t !! i = Some old ∧ t' = <[i := f old]> t.
Proof.
  unfold vec_update. destruct (t !! i) as [old|]; simpl; split.
  - intros [= <-]. eauto.
  - intros (? & [= <-] & ->). done.
  - done.
  - intros (? & ? & _). done.
Qed.

Lemma vec_update_lookup {T : Type} (t t' : list T) (i j : uint) (f : T → T) :
  vec_update t i f = Some t' →
  length t' = length t ∧
  t' !! j = if decide (i = j) then f <$> t !! j else t !! j.
Proof.
  intros (old & Hold & ->)%vec_update_Some. split; [apply length_insert|].
  case_decide as Hij.
  - subst j. rewrite Hold. simpl. apply list_lookup_insert_eq.
    by eapply lookup_lt_Some.
  - by apply list_lookup_insert_ne.
Qed.

Lemma sameInput_update (p : Parameters) (t : list ArithArray) (i : uint)
    (f : ArithArray → ArithArray) :
  vec_update (denoised_value_table_ p) i f = Some t →
  sameInput p (set_denoised_value_table p t).
Proof.
  intros Hupd. split; [by destruct p|].
  by destruct (vec_update_lookup _ _ _ i _ Hupd) as [? _].
Qed.

Section Keyed.

Context {A S T : Type}.

(** Every iteration updates, in the table [view] of the state, the entry at
    its own key, and no two iterations share a key: at the end each key has
    been updated once and the other entries are as they were. *)
Lemma forM_keyed (I : S → Prop) (view : S → list T) (key : A → uint)
    (F : A → T → T) (l : list A) (body : A → S → option S) (s s' : S) :
  (∀ x t1 t2, x ∈ l → I t1 → body x t1 = Some t2 →
     I t2 ∧ vec_update (view t1) (key x) (F x) = Some (view t2)) →
  NoDup (key <$> l) → I s → forM l body s = Some s' →
  I s' ∧
  length (view s') = length (view s) ∧
  (∀ x, x ∈ l → ∃ old, view s !! key x = Some old ∧
                       view s' !! key x = Some (F x old)) ∧
  (∀ i, i ∉ key <$> l → view s' !! i = view s !! i).
Proof.
  revert s. induction l as [|y l IH]; intros s Hstep Hnodup Hs Hrun.
  - simpl in Hrun. injection Hrun as <-. split; [done|]. split; [done|].
    split; [intros ? []%elem_of_nil | done].
  - simpl in Hrun. destruct (body y s) as [s1|] eqn:Hb; [|done].
    simpl in Hrun. rewrite fmap_cons in Hnodup.
    apply list.NoDup_cons in Hnodup as [Hy Hnodup].
    destruct (Hstep y s s1 ltac:(by left) Hs Hb) as [Hs1 Hupd].
    destruct (IH s1) as (Hs' & Hlen & Hkeys & Hframe); [|done..|].
    { intros x t1 t2 Hx. apply Hstep. by right. }
    pose proof (vec_update_lookup _ _ _ (key y) _ Hupd) as [Hlen1 Hy1].
    rewrite decide_True in Hy1 by done.
    split; [done|]. split; [congruence|]. split.
    + intros x [->|Hx]%elem_of_cons.
      * rewrite (Hframe _ Hy), Hy1.
        apply vec_update_Some in Hupd as (old & Hold & _).
        exists old. by rewrite Hold.
      * destruct (Hkeys x Hx) as (old & Hold & Hnew).
        exists old. split; [|done]. rewrite <- Hold. symmetry.
        pose proof (vec_update_lookup _ _ _ (key x) _ Hupd) as [_ Hx1].
        rewrite decide_False in Hx1; [done|].
        intros Heq. apply Hy. rewrite Heq. by apply list_elem_of_fmap_2.
    + intros i Hi. rewrite fmap_cons in Hi.
      apply not_elem_of_cons in Hi as [Hne Hi].
      rewrite (Hframe _ Hi).
      pose proof (vec_update_lookup _ _ _ i _ Hupd) as [_ Hi1].
      by rewrite decide_False in Hi1.
Qed.

End Keyed.

(** ** The fallback: only the main patch *)

Section Fallback.

Variable self : BayesianCollaborativeDenoiser.
Variable kDimension : uint.

(** The pixels of the search window whose bit is set in the mask. *)
Definition markedNeighbors (search_window : RenderingTile)
    (similar_mask : list bool) : list Index2d :=
  filter (λ pixel, similar_mask !! getIndex search_window pixel = Some true)
    (tile_pixels search_window).

(** The unweighted average of [count] values. *)
Definition average (kN : uint) (values : list ArithArray) (count : uint)
    : ArithArray :=
  map (λ x, x / cast_Float count)%Qc (foldl aa_add (aa_zero kN) values).

(** The loop that sums the entries of a table at the patch pixels
    [patch_offset] of the similar neighbours. *)
Definition similarSum (kN : uint) (res : Index2d)
    (search_window : RenderingTile) (patch_offset : Index2d)
    (similar_mask : list bool) (table : list ArithArray)
    (sum : ArithArray) : option ArithArray :=
  forM (tile_pixels search_window) (λ neighbor_pixel sum,
    similar ← vec_get similar_mask (getIndex search_window neighbor_pixel);
    if similar : bool then
      let src_pixel := patchPixel self neighbor_pixel patch_offset in
      let src_index := pixelIndex res src_pixel in
      v ← vec_get table src_index;
      Some (aa_add sum v)
    else Some sum) sum.

(** An iteration of the loop of [denoiseOnlyMainPatch]. *)
Definition onlyMainStep (main_pixel : Index2d) (similar_mask : list bool)
    (res : Index2d) (patch_number : uint) (st : Parameters * list Z)
    : option (Parameters * list Z) :=
  let search_window := makeSearchWindow self res main_pixel in
  let '(parameters, estimates_counter) := st in
  let patch_offset := patchOffset self patch_number in
  estimated_value ← similarSum kDimension res search_window patch_offset
    similar_mask (sample_value_table_ parameters) (aa_zero kDimension);
  k ← invert (cast_Float (mask_count similar_mask));
  let estimated_value := aa_mul_assign estimated_value k in
  let dst_pixel := patchPixel self main_pixel patch_offset in
  let dst_index := pixelIndex res dst_pixel in
  denoised ← vec_update (denoised_value_table_ parameters) dst_index
    (λ v, aa_add v estimated_value);
  estimates_counter ← vec_update estimates_counter dst_index Z.succ;
  Some (set_denoised_value_table parameters denoised, estimates_counter).

Lemma denoiseOnlyMainPatch_steps (main_pixel : Index2d)
    (similar_mask : list bool) (st : Parameters * list Z) :
  denoiseOnlyMainPatch self kDimension main_pixel similar_mask st =
  forM (seq 0 (getNumOfPatchPixels self))
    (onlyMainStep main_pixel similar_mask (resolution_ st.1)) st.
Proof.
  unfold denoiseOnlyMainPatch, for_range. rewrite Nat.sub_0_r. reflexivity.
Qed.

(** The sum of the loop is the sum of the table entries of the marked
    neighbours. *)
Lemma similarSum_values (kN : uint) (res : Index2d)
    (search_window : RenderingTile) (patch_offset : Index2d)
    (similar_mask : list bool) (table : list ArithArray)
    (sum sum' : ArithArray) :
  similarSum kN res search_window patch_offset similar_mask table sum =
    Some sum' →
  ∃ values,
    Forall2 (λ pixel v,
        table !! pixelIndex res (patchPixel self pixel patch_offset) = Some v)
      (markedNeighbors search_window similar_mask) values ∧
    sum' = foldl aa_add sum values.
Proof.
  unfold similarSum, markedNeighbors, vec_get.
  generalize (tile_pixels search_window). intros l. revert sum.
  induction l as [|x l IH]; intros sum Hrun; simpl in Hrun.
  - injection Hrun as <-. exists []. rewrite filter_nil.
    split; [constructor | done].
  - destruct (similar_mask !! getIndex search_window x) as [[|]|] eqn:Hx;
      [| |done]; simpl in Hrun.
    + destruct (table !! _) as [v|] eqn:Hv; [|done]. simpl in Hrun.
      destruct (IH _ Hrun) as (values & Hvalues & ->).
      exists (v :: values). rewrite filter_cons, decide_True by done.
      split; [by constructor | done].
    + destruct (IH _ Hrun) as (values & Hvalues & ->).
      exists values. rewrite filter_cons, decide_False by congruence. done.
Qed.

Lemma onlyMainStep_Some (main_pixel : Index2d) (similar_mask : list bool)
    (res : Index2d) (patch_number : uint) (p p' : Parameters) (c c' : list Z) :
  onlyMainStep main_pixel similar_mask res patch_number (p, c) = Some (p', c') →
  let search_window := makeSearchWindow self res main_pixel in
  let patch_offset := patchOffset self patch_number in
  let dst_index := pixelIndex res (patchPixel self main_pixel patch_offset) in
  ∃ sum k denoised,
    similarSum kDimension res search_window patch_offset similar_mask
      (sample_value_table_ p) (aa_zero kDimension) = Some sum ∧
    invert (cast_Float (mask_count similar_mask)) = Some k ∧
    vec_update (denoised_value_table_ p) dst_index
      (λ v, aa_add v (aa_mul_assign sum k)) = Some denoised ∧
    p' = set_denoised_value_table p denoised ∧
    vec_update c dst_index Z.succ = Some c'.
Proof.
  unfold onlyMainStep. intros Hrun. cbn zeta.
  apply bind_Some in Hrun as (sum & Hsum & Hrun).
  apply bind_Some in Hrun as (k & Hk & Hrun).
  apply bind_Some in Hrun as (denoised & Hdenoised & Hrun).
  apply bind_Some in Hrun as (c1 & Hc & Hrun).
  injection Hrun as <- <-. by exists sum, k, denoised.
Qed.

(** The patch numbers of a patch around an interior pixel address distinct
    pixels. *)
Lemma patch_indices_NoDup (res main_pixel : Index2d) :
  interior self res main_pixel →
  NoDup ((λ patch_number,
            pixelIndex res
              (patchPixel self main_pixel (patchOffset self patch_number)))
           <$> seq 0 (getNumOfPatchPixels self)).
Proof.
  intros Hmain. apply NoDup_fmap_2_strong; [|apply NoDup_seq].
  intros n1 n2 [_ H1]%elem_of_seq [_ H2]%elem_of_seq Heq. simpl in H1, H2.
  pose proof (patchOffset_inPatch self _ H1) as Ho1.
  pose proof (patchOffset_inPatch self _ H2) as Ho2.
  apply pixelIndex_inj in Heq;
    [|by apply patchPixel_in_image..].
  unfold patchPixel, patchOffset in Heq. cbn [fst snd] in Heq.
  destruct Hmain as (? & ? & ? & ?).
  destruct Ho1 as [? ?], Ho2 as [? ?]. unfold patchOffset in *.
  cbn [fst snd] in *.
  pose proof (f_equal fst Heq) as Hx. pose proof (f_equal snd Heq) as Hy.
  cbn [fst snd] in Hx, Hy.
  rewrite (Nat.div_mod_eq n1 (2 * patch_radius_ self + 1)),
    (Nat.div_mod_eq n2 (2 * patch_radius_ self + 1)).
  f_equal; [f_equal|]; lia.
Qed.

End Fallback.

Lemma forM_simulation {A S : Type} (φ : S → S) (l : list A)
    (body : A → S → option S) (s : S) :
  (∀ x t, body x (φ t) = φ <$> body x t) →
  forM l body (φ s) = φ <$> forM l body s.
Proof.
  intros Hbody. revert s. induction l as [|x l IH]; intros s; [done|].
  simpl. rewrite Hbody. destruct (body x s) as [s1|]; simpl; [apply IH|done].
Qed.

Section FallbackTheorem.

Variable self : BayesianCollaborativeDenoiser.
Variable kDimension : uint.
Variable main_pixel : Index2d.
Variable similar_mask : list bool.

(** What [denoiseOnlyMainPatch] adds at the pixel of a patch number. *)
Definition mainPatchEstimate (p : Parameters) (patch_number : uint)
    : ArithArray :=
  let search_window := makeSearchWindow self (resolution_ p) main_pixel in
  match similarSum self kDimension (resolution_ p) search_window
          (patchOffset self patch_number) similar_mask
          (sample_value_table_ p) (aa_zero kDimension),
        invert (cast_Float (mask_count similar_mask)) with
  | Some sum, Some k => aa_mul_assign sum k
  | _, _ => []
  end.

Definition mainPatchIndex (p : Parameters) (patch_number : uint) : uint :=
  pixelIndex (resolution_ p)
    (patchPixel self main_pixel (patchOffset self patch_number)).

Lemma denoiseOnlyMainPatch_tables (p p' : Parameters) (c c' : list Z) :
  interior self (resolution_ p) main_pixel →
  denoiseOnlyMainPatch self kDimension main_pixel similar_mask (p, c) =
    Some (p', c') →
  sameInput p p' ∧
  (∀ patch_number, patch_number < getNumOfPatchPixels self →
     ∃ old count,
       denoised_value_table_ p !! mainPatchIndex p patch_number = Some old ∧
       denoised_value_table_ p' !! mainPatchIndex p patch_number =
         Some (aa_add old (mainPatchEstimate p patch_number)) ∧
       c !! mainPatchIndex p patch_number = Some count ∧
       c' !! mainPatchIndex p patch_number = Some (Z.succ count)) ∧
  (∀ i, (∀ patch_number, patch_number < getNumOfPatchPixels self →
           i ≠ mainPatchIndex p patch_number) →
        denoised_value_table_ p' !! i = denoised_value_table_ p !! i ∧
        c' !! i = c !! i) ∧
  Forall2 Z.le c c'.
Proof.
  intros Hmain Hrun. rewrite denoiseOnlyMainPatch_steps in Hrun.
  cbn [fst] in Hrun.
  assert (Hstep : ∀ n t1 t2,
            n ∈ seq 0 (getNumOfPatchPixels self) →
            sameInput p t1.1 →
            onlyMainStep self kDimension main_pixel similar_mask
              (resolution_ p) n t1 = Some t2 →
            sameInput p t2.1 ∧
            vec_update (denoised_value_table_ t1.1) (mainPatchIndex p n)
              (λ v, aa_add v (mainPatchEstimate p n)) =
              Some (denoised_value_table_ t2.1) ∧
            vec_update t1.2 (mainPatchIndex p n) Z.succ = Some t2.2).
  { intros n [p1 c1] [p2 c2] _ Hsame Hs.
    apply onlyMainStep_Some in Hs
      as (sum & k & denoised & Hsum & Hk & Hden & -> & Hc).
    cbn [fst snd] in *. split; [|split; [|done]].
    - eapply sameInput_trans; [done|]. by eapply sameInput_update.
    - unfold mainPatchEstimate.
      rewrite (sameInput_sample_values _ _ Hsame) in Hsum.
      rewrite Hsum, Hk. exact Hden. }
  destruct (forM_keyed (λ t, sameInput p t.1)
              (λ t : Parameters * list Z, denoised_value_table_ t.1)
              (mainPatchIndex p)
              (λ n v, aa_add v (mainPatchEstimate p n))
              (seq 0 (getNumOfPatchPixels self))
              (onlyMainStep self kDimension main_pixel similar_mask
                 (resolution_ p)) (p, c) (p', c'))
    as (Hsame & _ & Hdkeys & Hdframe); [|by apply patch_indices_NoDup|
                                        apply sameInput_refl|done|].
  { intros n t1 t2 Hn Ht1 Hb.
    by destruct (Hstep n t1 t2 Hn Ht1 Hb) as (? & ? & ?). }
  destruct (forM_keyed (λ t, sameInput p t.1)
              (λ t : Parameters * list Z, t.2)
              (mainPatchIndex p) (λ _, Z.succ)
              (seq 0 (getNumOfPatchPixels self))
              (onlyMainStep self kDimension main_pixel similar_mask
                 (resolution_ p)) (p, c) (p', c'))
    as (_ & Hclen & Hckeys & Hcframe); [|by apply patch_indices_NoDup|
                                        apply sameInput_refl|done|].
  { intros n t1 t2 Hn Ht1 Hb.
    by destruct (Hstep n t1 t2 Hn Ht1 Hb) as (? & ? & ?). }
  cbn [fst snd] in *. split; [done|]. split; [|split].
  - intros n Hn.
    destruct (Hdkeys n) as (old & Hold & Hnew); [apply elem_of_seq; lia|].
    destruct (Hckeys n) as (count & Hcount & Hcount'); [apply elem_of_seq; lia|].
    by exists old, count.
  - intros i Hi.
    assert (Hnot : i ∉ mainPatchIndex p <$> seq 0 (getNumOfPatchPixels self)).
    { intros (n & -> & [_ Hn]%elem_of_seq)%list_elem_of_fmap.
      by apply (Hi n). }
    split; [by apply Hdframe | by apply Hcframe].
  - apply Forall2_same_length_lookup. split; [done|].
    intros i x y Hx Hy.
    destruct (decide (i ∈ mainPatchIndex p <$>
                            seq 0 (getNumOfPatchPixels self)))
      as [(n & -> & Hn)%list_elem_of_fmap|Hnot].
    + destruct (Hckeys n Hn) as (count & Hcount & Hcount'). simplify_eq. lia.
    + rewrite (Hcframe _ Hnot) in Hy. simplify_eq. lia.
Qed.

(** The fallback reads no covariance factor. *)
Lemma denoiseOnlyMainPatch_ignores_covariance (p : Parameters) (c : list Z)
    (factors : list ArithArray) :
  denoiseOnlyMainPatch self kDimension main_pixel similar_mask
    (set_covariance_factor_table p factors, c) =
  (λ st, (set_covariance_factor_table st.1 factors, st.2)) <$>
    denoiseOnlyMainPatch self kDimension main_pixel similar_mask (p, c).
Proof.
  rewrite !denoiseOnlyMainPatch_steps. cbn [fst resolution_
    set_covariance_factor_table].
  apply (forM_simulation
           (λ st : Parameters * list Z,
              (set_covariance_factor_table st.1 factors, st.2))
           _ _ (p, c)).
  intros n [p1 c1]. unfold onlyMainStep. cbn [fst snd sample_value_table_
    denoised_value_table_ set_covariance_factor_table].
  destruct (similarSum _ _ _ _ _ _ _ _) as [sum|]; [|done]. simpl.
  destruct (invert _) as [k|]; [|done]. simpl.
  destruct (vec_update (denoised_value_table_ p1) _ _) as [d|]; [|done]. simpl.
  destruct (vec_update c1 _ _) as [c2|]; done.
Qed.

End FallbackTheorem.

Lemma forM_elem_step {A S : Type} (I : S → Prop) (l : list A)
    (body : A → S → option S) (s s' : S) (x : A) :
  x ∈ l →
  (∀ y t1 t2, y ∈ l → I t1 → body y t1 = Some t2 → I t2) →
  I s → forM l body s = Some s' →
  ∃ t1 t2, I t1 ∧ body x t1 = Some t2.
Proof.
  revert s. induction l as [|y l IH]; intros s Hx Hstep Hs Hrun.
  - by apply elem_of_nil in Hx.
  - simpl in Hrun. destruct (body y s) as [s1|] eqn:Hb; [|done].
    simpl in Hrun. apply elem_of_cons in Hx as [->|Hx]; [by eauto|].
    apply (IH s1); try done.
    + intros z t1 t2 Hz. apply Hstep. by right.
    + eapply Hstep; [|done..]. by left.
Qed.

Lemma invert_Some (x k : Float) :
  invert x = Some k → x ≠ 0%Qc ∧ k = (/ x)%Qc.
Proof. unfold invert. case_decide; [done|]. by intros [= <-]. Qed.

Section FallbackClaim.

Variable self : BayesianCollaborativeDenoiser.
Variable kDimension : uint.

Lemma getPatchDimension_eq :
  getPatchDimension self kDimension =
    kDimension * (2 * patch_radius_ self + 1) ^ 2.
Proof. reflexivity. Qed.

(** C7: [denoisePixels] takes the fallback [denoiseOnlyMainPatch] if and only
    if the number of similar patches of the mask is at most
    [kDimension * (2 * patch_radius_ + 1) ^ 2], and [denoiseSelectedPatches]
    otherwise.  In the fallback, for every offset of the patch, the value
    added to the denoised value at that offset from the main pixel, whose
    counter goes up by one, is the unweighted average, over the neighbours
    that the mask marks, of the raw sample values at the same offset; the
    covariance factors are not read. *)
Theorem denoisePixels_fallback (main_pixel : Index2d) (ws : Workspace)
    (similar_mask : list bool) :
  let p := parameters ws in
  let res := resolution_ p in
  let search_window := makeSearchWindow self res main_pixel in
  interior self res main_pixel →
  (0 ≤ histogram_distance_threshold_ self)%Qc →
  selectSimilarPatches self kDimension p main_pixel = Some similar_mask →
  (denoisePixels self kDimension main_pixel ws =
     if decide (mask_count similar_mask ≤
                kDimension * (2 * patch_radius_ self + 1) ^ 2)
     then
       (λ st, {| parameters := st.1;
                 staging_value_table := staging_value_table ws;
                 estimates_counter := st.2;
                 pixel_marker := pixel_marker ws |}) <$>
         denoiseOnlyMainPatch self kDimension main_pixel similar_mask
           (p, estimates_counter ws)
     else denoiseSelectedPatches self kDimension main_pixel similar_mask ws) ∧
  (∀ p' c',
     denoiseOnlyMainPatch self kDimension main_pixel similar_mask
       (p, estimates_counter ws) = Some (p', c') →
     ∀ patch_offset, inPatch self patch_offset →
       let dst_index :=
         pixelIndex res (patchPixel self main_pixel patch_offset) in
       ∃ values old count,
         Forall2 (λ neighbor_pixel v,
             sample_value_table_ p !!
               pixelIndex res (patchPixel self neighbor_pixel patch_offset) =
             Some v)
           (markedNeighbors search_window similar_mask) values ∧
         mask_count similar_mask = length values ∧
         denoised_value_table_ p !! dst_index = Some old ∧
         denoised_value_table_ p' !! dst_index =
           Some (aa_add old (average kDimension values (length values))) ∧
         estimates_counter ws !! dst_index = Some count ∧
         c' !! dst_index = Some (Z.succ count)) ∧
  (∀ factors,
     denoiseOnlyMainPatch self kDimension main_pixel similar_mask
       (set_covariance_factor_table p factors, estimates_counter ws) =
     (λ st, (set_covariance_factor_table st.1 factors, st.2)) <$>
       denoiseOnlyMainPatch self kDimension main_pixel similar_mask
         (p, estimates_counter ws)).
Proof.
  intros p res search_window Hmain Hthreshold Hmask.
  split; [|split].
  - unfold denoisePixels. fold p. rewrite Hmask. cbn [mbind option_bind].
    rewrite getPatchDimension_eq. destruct (decide _); [|reflexivity].
    by destruct (denoiseOnlyMainPatch _ _ _ _ _) as [[p' c']|].
  - intros p' c' Hrun patch_offset Hoffset dst_index.
    destruct (patchOffset_cover self _ Hoffset) as (n & Hn & <-).
    destruct (denoiseOnlyMainPatch_tables _ _ _ _ _ _ _ _ Hmain Hrun)
      as (_ & Hkeys & _ & _).
    destruct (Hkeys n Hn) as (old & count & Hold & Hnew & Hcount & Hcount').
    rewrite denoiseOnlyMainPatch_steps in Hrun. cbn [fst] in Hrun.
    destruct (forM_elem_step (λ t : Parameters * list Z, sameInput p t.1)
                (seq 0 (getNumOfPatchPixels self))
                (onlyMainStep self kDimension main_pixel similar_mask res)
                (p, estimates_counter ws) (p', c') n)
      as ([p1 c1] & [p2 c2] & Hsame & Hstep);
      [apply elem_of_seq; lia| |apply sameInput_refl|done|].
    { intros y [p1 c1] [p2 c2] _ Hsame
        (? & ? & ? & _ & _ & Hupd & -> & _)%onlyMainStep_Some.
      eapply sameInput_trans; [exact Hsame|]. by eapply sameInput_update. }
    apply onlyMainStep_Some in Hstep as (sum & k & _ & Hsum & Hk & _).
    cbn [fst] in Hsame.
    rewrite (sameInput_sample_values _ _ Hsame) in Hsum.
    destruct (similarSum_values _ _ _ _ _ _ _ _ _ Hsum)
      as (values & Hvalues & ->).
    unfold mainPatchEstimate in Hnew. subst dst_index search_window res.
    rewrite Hsum, Hk in Hnew.
    apply invert_Some in Hk as [_ ->].
    destruct (selectSimilarPatches_mask self kDimension p main_pixel
                Hmain Hthreshold) as [_ Hselect].
    destruct (Hselect _ Hmask) as (_ & _ & Hlen).
    fold (markedNeighbors (makeSearchWindow self (resolution_ p) main_pixel)
            similar_mask) in Hlen.
    rewrite (Forall2_length Hvalues) in Hlen.
    exists values, old, count. repeat split; try done.
    rewrite Hlen in Hnew. exact Hnew.
  - intros factors. apply denoiseOnlyMainPatch_ignores_covariance.
Qed.

End FallbackClaim.

(** ** A denoising pass *)

Section Pass.

Variable self : BayesianCollaborativeDenoiser.
Variable kDimension : uint.

Hypothesis marker_word : 3 ≤ kMarkerRepBits self.

(** Every pixel of the patch around [pixel] has received an estimate. *)
Definition covered (res : Index2d) (counter : list Z) (pixel : Index2d)
    : Prop :=
  ∀ patch_offset, inPatch self patch_offset →
    counted counter (pixelIndex res (patchPixel self pixel patch_offset)).

Definition marked (ws : Workspace) (index : uint) : Prop :=
  isMarked (kMarkerRepBits self) (pixel_marker ws) index = Some true.

(** The invariant of a pass: counters are not negative, and a marked pixel
    is an interior pixel whose whole patch has received an estimate. *)
Definition passInvariant (res : Index2d) (ws : Workspace) : Prop :=
  resolution_ (parameters ws) = res ∧
  Forall (Z.le 0) (estimates_counter ws) ∧
  ∀ index, marked ws index →
    ∃ pixel, interior self res pixel ∧ index = pixelIndex res pixel ∧
             covered res (estimates_counter ws) pixel.

Definition counterLe (ws ws' : Workspace) : Prop :=
  Forall2 Z.le (estimates_counter ws) (estimates_counter ws').

Lemma counterLe_refl (ws : Workspace) : counterLe ws ws.
Proof. apply Forall2_Zle_refl. Qed.

Lemma counterLe_trans (ws1 ws2 ws3 : Workspace) :
  counterLe ws1 ws2 → counterLe ws2 ws3 → counterLe ws1 ws3.
Proof. apply Forall2_Zle_trans. Qed.

Lemma covered_mono (res : Index2d) (c c' : list Z) (pixel : Index2d) :
  Forall2 Z.le c c' → covered res c pixel → covered res c' pixel.
Proof. intros Hle Hc o Ho. eapply counted_mono; [done|]. by apply Hc. Qed.

Lemma Forall_nonneg_mono (c c' : list Z) :
  Forall2 Z.le c c' → Forall (Z.le 0) c → Forall (Z.le 0) c'.
Proof.
  intros Hle Hc. apply Forall_lookup. intros i z' Hz'.
  destruct (Forall2_lookup_r _ _ _ _ _ Hle Hz') as (z & Hz & Hzz).
  pose proof (Forall_lookup_1 _ _ _ _ Hc Hz). lia.
Qed.

Lemma accumulateStaging_spec (res : Index2d) (search_window : RenderingTile)
    (patch_offset : Index2d) (similar_mask : list bool) (ws ws' : Workspace) :
  accumulateStaging self res search_window patch_offset similar_mask ws =
    Some ws' →
  (sameInput (parameters ws) (parameters ws') ∧
   (∀ index, marked ws' index →
      marked ws index ∨
      (patch_offset = (patch_radius_ self, patch_radius_ self) ∧
       ∃ pixel, pixel ∈ tile_pixels search_window ∧
                similar_mask !! getIndex search_window pixel = Some true ∧
                index = pixelIndex res (patchPixel self pixel patch_offset)))) ∧
  counterLe ws ws' ∧
  ∀ pixel, pixel ∈ tile_pixels search_window →
    Forall (Z.le 0) (estimates_counter ws) →
    similar_mask !! getIndex search_window pixel = Some true →
    counted (estimates_counter ws')
      (pixelIndex res (patchPixel self pixel patch_offset)).
Proof.
  unfold accumulateStaging.
  set (I := λ t : Workspace,
         (sameInput (parameters ws) (parameters t) ∧
          (∀ index, marked t index →
             marked ws index ∨
             (patch_offset = (patch_radius_ self, patch_radius_ self) ∧
              ∃ pixel, pixel ∈ tile_pixels search_window ∧
                       similar_mask !! getIndex search_window pixel =
                         Some true ∧
                       index = pixelIndex res
                                 (patchPixel self pixel patch_offset)))) ∧
         counterLe ws t).
  intros Hrun.
  set (C := λ (pixel : Index2d) (t : Workspace),
         Forall (Z.le 0) (estimates_counter ws) →
         similar_mask !! getIndex search_window pixel = Some true →
         counted (estimates_counter t)
           (pixelIndex res (patchPixel self pixel patch_offset))).
  match type of Hrun with
  | forM ?l ?b _ = _ =>
      destruct (forM_cover I counterLe C l b ws ws'
                  counterLe_refl counterLe_trans)
        as ((HI & _) & Hle & Hcov); [| | |exact Hrun|]
  end.
  - intros pixel t1 t2 Hle Hc Hnonneg Hbit.
    eapply counted_mono; [exact Hle|]. by apply Hc.
  - intros pixel t1 t2 Hin [[Hsame Hmarks] Hle1] Hstep.
    unfold vec_get in Hstep.
    destruct (similar_mask !! getIndex search_window pixel) as [[|]|] eqn:Hbit;
      [| |done]; simpl in Hstep.
    + apply bind_Some in Hstep as (staging_value & _ & Hstep).
      apply bind_Some in Hstep as (denoised & Hdenoised & Hstep).
      apply bind_Some in Hstep as (counter & Hcounter & Hstep).
      apply bind_Some in Hstep as (marker & Hmarker & Hstep).
      injection Hstep as <-.
      destruct (counter_increment _ _ _ Hcounter) as [Hle2 _].
      split; [split; [split|]|split].
      * cbn [parameters]. eapply sameInput_trans; [exact Hsame|].
        by eapply sameInput_update.
      * unfold marked. cbn [pixel_marker]. intros index Hindex.
        case_decide as Hcenter.
        -- destruct (mark_sound _ _ _ _ _ marker_word Hmarker Hindex)
             as [Hold| ->]; [by apply Hmarks|].
           right. split; [done|]. by exists pixel.
        -- injection Hmarker as <-. by apply Hmarks.
      * unfold counterLe in *. cbn [estimates_counter].
        by eapply Forall2_Zle_trans.
      * unfold counterLe. cbn [estimates_counter]. done.
      * intros Hnonneg _. cbn [estimates_counter].
        by eapply counter_increment_counted.
    + injection Hstep as <-. split; [by split|].
      split; [apply counterLe_refl|]. intros _ Hbit'. congruence.
  - split; [split|]; [apply sameInput_refl|by left|apply counterLe_refl].
  - done.
Qed.

Lemma denoiseSelectedPatches_spec (main_pixel : Index2d)
    (similar_mask : list bool) (ws ws' : Workspace) :
  let res := resolution_ (parameters ws) in
  let search_window := makeSearchWindow self res main_pixel in
  denoiseSelectedPatches self kDimension main_pixel similar_mask ws =
    Some ws' →
  sameInput (parameters ws) (parameters ws') ∧
  (∀ index, marked ws' index →
     marked ws index ∨
     ∃ pixel, pixel ∈ tile_pixels search_window ∧
              similar_mask !! getIndex search_window pixel = Some true ∧
              index = pixelIndex res pixel) ∧
  counterLe ws ws' ∧
  (Forall (Z.le 0) (estimates_counter ws) →
   ∀ pixel, pixel ∈ tile_pixels search_window →
     similar_mask !! getIndex search_window pixel = Some true →
     covered res (estimates_counter ws') pixel).
Proof.
  intros res search_window. unfold denoiseSelectedPatches, for_range.
  rewrite Nat.sub_0_r. fold res search_window. intros Hrun.
  set (I := λ t : Workspace,
         sameInput (parameters ws) (parameters t) ∧
         (∀ index, marked t index →
            marked ws index ∨
            ∃ pixel, pixel ∈ tile_pixels search_window ∧
                     similar_mask !! getIndex search_window pixel =
                       Some true ∧
                     index = pixelIndex res pixel) ∧
         counterLe ws t).
  set (C := λ (patch_number : uint) (t : Workspace),
         Forall (Z.le 0) (estimates_counter ws) →
         ∀ pixel, pixel ∈ tile_pixels search_window →
           similar_mask !! getIndex search_window pixel = Some true →
           counted (estimates_counter t)
             (pixelIndex res
                (patchPixel self pixel (patchOffset self patch_number)))).
  match type of Hrun with
  | forM ?l ?b _ = _ =>
      destruct (forM_cover I counterLe C l b ws ws'
                  counterLe_refl counterLe_trans)
        as ((Hsame & Hmarks & _) & Hle & Hcov); [| | |exact Hrun|]
  end.
  - intros n t1 t2 Hle Hc Hnonneg pixel Hin Hbit.
    eapply counted_mono; [exact Hle|]. by apply Hc.
  - intros n t1 t2 _ (Hsame & Hmarks & Hle1) Hstep.
    repeat (apply bind_Some in Hstep as (? & _ & Hstep)).
    apply accumulateStaging_spec in Hstep
      as ((Hsame2 & Hmarks2) & Hle2 & Hcov2).
    cbn [parameters estimates_counter pixel_marker] in *.
    unfold counterLe, marked in *.
    cbn [parameters estimates_counter pixel_marker] in *.
    split; [split; [|split]|split].
    + by eapply sameInput_trans.
    + intros index Hindex.
      destruct (Hmarks2 index Hindex)
        as [Hold|(-> & pixel & Hin & Hbit & ->)]; [by apply Hmarks|].
      right. exists pixel. by rewrite patchPixel_center.
    + by eapply Forall2_Zle_trans.
    + done.
    + intros Hnonneg pixel Hin Hbit. apply Hcov2; [done| |done].
      by eapply Forall_nonneg_mono.
  - split; [apply sameInput_refl|]. split; [by left|apply counterLe_refl].
  - split; [done|]. split; [done|]. split; [done|].
    intros Hnonneg pixel Hin Hbit patch_offset Hoffset.
    destruct (patchOffset_cover self _ Hoffset) as (n & Hn & <-).
    apply (Hcov n); [apply elem_of_seq; lia|done..].
Qed.

Hypothesis threshold_nonneg : (0 ≤ histogram_distance_threshold_ self)%Qc.

(** A later state of the pass: the same input and size of the tables, and
    counters that are at least what they were. *)
Definition later (ws ws' : Workspace) : Prop :=
  sameInput (parameters ws) (parameters ws') ∧ counterLe ws ws'.

Lemma later_refl (ws : Workspace) : later ws ws.
Proof. split; [apply sameInput_refl | apply counterLe_refl]. Qed.

Lemma later_trans (ws1 ws2 ws3 : Workspace) :
  later ws1 ws2 → later ws2 ws3 → later ws1 ws3.
Proof.
  intros [? ?] [? ?].
  split; [by eapply sameInput_trans | by eapply counterLe_trans].
Qed.

Lemma covered_later (res : Index2d) (ws ws' : Workspace) (pixel : Index2d) :
  later ws ws' → covered res (estimates_counter ws) pixel →
  covered res (estimates_counter ws') pixel.
Proof. intros [_ Hle]. by apply covered_mono. Qed.

Lemma denoisePixels_spec (res main_pixel : Index2d) (ws ws' : Workspace) :
  passInvariant res ws → interior self res main_pixel →
  denoisePixels self kDimension main_pixel ws = Some ws' →
  passInvariant res ws' ∧ later ws ws' ∧
  covered res (estimates_counter ws') main_pixel.
Proof.
  intros (Hres & Hnonneg & Hmarks) Hmain Hrun. unfold denoisePixels in Hrun.
  apply bind_Some in Hrun as (similar_mask & Hmask & Hrun).
  rewrite <- Hres in Hmain.
  pose proof (selectSimilarPatches_main _ _ _ _ _ Hmain threshold_nonneg Hmask)
    as Hbit.
  case_decide as Hcount.
  - apply bind_Some in Hrun as ([p' c'] & Hfallback & Hrun).
    injection Hrun as <-.
    destruct (denoiseOnlyMainPatch_tables _ _ _ _ _ _ _ _ Hmain Hfallback)
      as (Hsame & Hkeys & _ & Hle).
    assert (Hcov : covered res c' main_pixel).
    { intros patch_offset Hoffset.
      destruct (patchOffset_cover self _ Hoffset) as (n & Hn & <-).
      destruct (Hkeys n Hn) as (_ & count & _ & _ & Hcount0 & Hcount1).
      unfold mainPatchIndex in Hcount0, Hcount1. rewrite Hres in *.
      exists (Z.succ count). split; [done|].
      pose proof (Forall_lookup_1 _ _ _ _ Hnonneg Hcount0). lia. }
    split; [|split; [by split | exact Hcov]].
    split; [|split]; cbn [parameters estimates_counter].
    + by rewrite (sameInput_resolution _ _ Hsame).
    + by eapply Forall_nonneg_mono.
    + intros index Hindex. destruct (Hmarks index Hindex)
        as (pixel & Hpixel & -> & Hcovered).
      exists pixel. split; [done|]. split; [done|].
      by eapply covered_mono.
  - destruct (denoiseSelectedPatches_spec _ _ _ _ Hrun)
      as (Hsame & Hmarks' & Hle & Hcov).
    rewrite Hres in *.
    split; [|split; [by split|]].
    + split; [|split].
      * by rewrite (sameInput_resolution _ _ Hsame).
      * by eapply Forall_nonneg_mono.
      * intros index Hindex.
        destruct (Hmarks' index Hindex)
          as [Hold|(pixel & Hin & Hpixel & ->)].
        -- destruct (Hmarks index Hold) as (pixel & Hpixel & -> & Hcovered).
           exists pixel. split; [done|]. split; [done|].
           by eapply covered_mono.
        -- exists pixel. split; [by eapply searchWindow_interior|].
           split; [done|]. by apply Hcov.
    + apply Hcov; [done| |done]. by apply searchWindow_main.
Qed.

Lemma denoise_chunk_spec (res chunk_resolution tile_position : Index2d)
    (chunk_number : uint) (ws ws' : Workspace) :
  passInvariant res ws →
  denoise_chunk self kDimension chunk_resolution tile_position chunk_number ws =
    Some ws' →
  passInvariant res ws' ∧ later ws ws' ∧
  ∀ pixel,
    pixel ∈ tile_pixels
      (makeChunkTile self res
         (chunk_number mod chunk_resolution.1,
          chunk_number / chunk_resolution.1) tile_position) →
    covered res (estimates_counter ws') pixel.
Proof.
  intros Hinv Hrun. unfold denoise_chunk in Hrun.
  destruct Hinv as (Hres & Hinv). rewrite Hres in Hrun.
  assert (Hinv0 : passInvariant res ws) by (by split).
  match type of Hrun with
  | forM ?l ?b _ = _ =>
      apply (forM_cover (passInvariant res) later
               (λ pixel t, covered res (estimates_counter t) pixel)
               l b ws ws' later_refl later_trans); [| |done..]
  end.
  - intros pixel t1 t2 Hle. by apply covered_later.
  - intros pixel t1 t2 Hin Ht1 Hstep.
    apply chunkTile_interior in Hin.
    apply bind_Some in Hstep as ([|] & Hmarked & Hstep).
    + injection Hstep as <-. split; [done|]. split; [apply later_refl|].
      destruct Ht1 as (_ & _ & Hmarks).
      destruct (Hmarks _ Hmarked) as (pixel' & Hpixel' & Heq & Hcovered).
      apply pixelIndex_inj in Heq as ->; [done|..].
      * destruct Hin as (? & ? & _). lia.
      * destruct Hpixel' as (? & ? & _). lia.
    + by apply denoisePixels_spec.
Qed.

Lemma denoiseChunk_spec (res chunk_resolution tile_position : Index2d)
    (ws ws' : Workspace) :
  passInvariant res ws →
  denoiseChunk self kDimension chunk_resolution tile_position ws = Some ws' →
  passInvariant res ws' ∧ later ws ws' ∧
  ∀ chunk_number pixel,
    chunk_number < chunk_resolution.1 * chunk_resolution.2 →
    pixel ∈ tile_pixels
      (makeChunkTile self res
         (chunk_number mod chunk_resolution.1,
          chunk_number / chunk_resolution.1) tile_position) →
    covered res (estimates_counter ws') pixel.
Proof.
  intros Hinv Hrun. unfold denoiseChunk, for_range in Hrun.
  rewrite Nat.sub_0_r in Hrun.
  match type of Hrun with
  | forM ?l ?b _ = _ =>
      destruct (forM_cover (passInvariant res) later
                  (λ chunk_number t, ∀ pixel,
                     pixel ∈ tile_pixels
                       (makeChunkTile self res
                          (chunk_number mod chunk_resolution.1,
                           chunk_number / chunk_resolution.1) tile_position) →
                     covered res (estimates_counter t) pixel)
                  l b ws ws' later_refl later_trans)
        as (Hinv' & Hle & Hcov); [| |done..|]
  end.
  - intros n t1 t2 Hle Hc pixel Hin. eapply covered_later; [done|].
    by apply Hc.
  - intros n t1 t2 _ Ht1 Hstep. by apply denoise_chunk_spec.
  - split; [done|]. split; [done|]. intros n pixel Hn.
    apply Hcov. apply elem_of_seq. lia.
Qed.

Lemma denoiseTiles_spec (res chunk_resolution : Index2d) (scale : uint)
    (tile_order : list Index2d) (first : uint) (ws ws' : Workspace)
    (out out' : list (uint * uint)) :
  passInvariant res ws →
  denoiseTiles self kDimension chunk_resolution scale tile_order first
    (ws, out) = Some (ws', out') →
  passInvariant res ws' ∧ later ws ws' ∧
  ∀ tile_position chunk_number pixel,
    tile_position ∈ tile_order →
    chunk_number < chunk_resolution.1 * chunk_resolution.2 →
    pixel ∈ tile_pixels
      (makeChunkTile self res
         (chunk_number mod chunk_resolution.1,
          chunk_number / chunk_resolution.1) tile_position) →
    covered res (estimates_counter ws') pixel.
Proof.
  intros Hinv Hrun. unfold denoiseTiles in Hrun.
  match type of Hrun with
  | forM ?l ?b _ = _ =>
      destruct (forM_cover
                  (λ t : Workspace * list (uint * uint), passInvariant res t.1)
                  (λ t1 t2 : Workspace * list (uint * uint),
                     later t1.1 t2.1)
                  (λ (x : uint * Index2d) (t : Workspace * list (uint * uint)),
                     ∀ chunk_number pixel,
                       chunk_number <
                         chunk_resolution.1 * chunk_resolution.2 →
                       pixel ∈ tile_pixels
                         (makeChunkTile self res
                            (chunk_number mod chunk_resolution.1,
                             chunk_number / chunk_resolution.1) x.2) →
                       covered res (estimates_counter t.1) pixel)
                  l b (ws, out) (ws', out'))
        as (Hinv' & Hle & Hcov); [| | | |done..|]
  end.
  - intros t. apply later_refl.
  - intros t1 t2 t3. apply later_trans.
  - intros x t1 t2 Hle Hc n pixel Hn Hin. eapply covered_later; [done|].
    exact (Hc n pixel Hn Hin).
  - intros [tile_number tile_position] [ws1 out1] [ws2 out2] _ Ht1 Hstep.
    apply bind_Some in Hstep as (ws3 & Hchunk & Hstep).
    injection Hstep as <- <-. cbn [fst snd] in *.
    by apply denoiseChunk_spec.
  - split; [done|]. split; [done|].
    intros tile_position n pixel Htile Hn Hin.
    apply list_elem_of_lookup in Htile as [i Hi].
    refine (Hcov (first + i, tile_position) _ n pixel Hn Hin).
    apply list_elem_of_lookup. exists i. by rewrite list_lookup_imap, Hi.
Qed.

End Pass.

(** ** Worker threads *)

(** The indices that the workers of a parallel stage process, worker by
    worker. *)
Definition threadIndices (system : System) (n : uint) : list uint :=
  thread_id ← seq 0 (numOfThreads system);
  seq (calcThreadRange system n thread_id).1
      ((calcThreadRange system n thread_id).2 -
       (calcThreadRange system n thread_id).1).

(** The ranges of the workers partition the [n] indices: every index is
    processed by one worker, once. *)
Definition threadsPartition (system : System) (n : uint) : Prop :=
  NoDup (threadIndices system n) ∧
  ∀ index, index ∈ threadIndices system n ↔ index < n.

Lemma exampleSystem_partition (w h n : uint) :
  threadsPartition (exampleSystem w h) n.
Proof.
  unfold threadsPartition, threadIndices. cbn.
  rewrite app_nil_r, Nat.sub_0_r. split; [apply NoDup_seq|].
  intros index. rewrite elem_of_seq. lia.
Qed.


(** ** Aggregation *)

Section Aggregate.

Variable system : System.
Variable estimates_counter : list Z.






End Aggregate.

(** ** A full pass *)

Section FullPass.

Variable self : BayesianCollaborativeDenoiser.
Variable kDimension : uint.

Lemma clearedWorkspace_invariant (p : Parameters) (staging : list ArithArray)
    (counter : list Z) (marker : PixelMarker) :
  passInvariant self (resolution_ p)
    (clearedWorkspace p staging counter marker).
Proof.
  split; [done|]. split.
  - apply Forall_fmap, Forall_forall. intros. simpl. lia.
  - intros index Hmarked. by apply clear_not_marked in Hmarked.
Qed.


(** C9, as the code has it: at the end of every tile of a pass, every pixel
    whose marker bit is set has an estimate count of at least one.  (The
    converse fails: the fallback and the offsets other than the centre of a
    patch count without marking.) *)
Theorem marked_pixels_are_estimated (scale : uint) (p : Parameters)
    (staging : list ArithArray) (counter : list Z) (marker : PixelMarker)
    (chunk_resolution : Index2d) (tiles : list Index2d) (first : uint)
    (out out' : list (uint * uint)) (ws' : Workspace) :
  3 ≤ kMarkerRepBits self →
  (0 ≤ histogram_distance_threshold_ self)%Qc →
  denoiseTiles self kDimension chunk_resolution scale tiles first
    (clearedWorkspace p staging counter marker, out) = Some (ws', out') →
  ∀ index,
    isMarked (kMarkerRepBits self) (pixel_marker ws') index = Some true →
    counted (estimates_counter ws') index.
Proof.
  intros Hword Hthreshold Hrun index Hmarked.
  destruct (denoiseTiles_spec self kDimension Hword Hthreshold
              (resolution_ p) _ _ _ _ _ _ _ _
              (clearedWorkspace_invariant p staging counter marker) Hrun)
    as ((_ & _ & Hmarks) & _ & _).
  destruct (Hmarks index Hmarked) as (pixel & _ & -> & Hcovered).
  rewrite <- (patchPixel_center self pixel) at 1.
  apply Hcovered. unfold inPatch. simpl. lia.
Qed.

End FullPass.

(** ** Filling arrays *)

Lemma aa_fill_prefix (n : uint) (f : uint → Float) (dst : ArithArray) :
  n ≤ length dst →
  aa_fill n f dst = (f <$> seq 0 n) ++ drop n dst.
Proof.
  unfold aa_fill. induction n as [|n IH]; intros Hlen.
  - by rewrite drop_0.
  - rewrite seq_S, foldl_app, fmap_app. simpl. rewrite IH by lia.
    rewrite insert_app_r_alt by (rewrite length_fmap, length_seq; lia).
    rewrite length_fmap, length_seq, Nat.sub_diag, <- app_assoc. f_equal.
    destruct (lookup_lt_is_Some_2 dst n ltac:(lia)) as [x Hx].
    rewrite (drop_S _ _ _ Hx). done.
Qed.

Lemma aa_fill_eq (n : uint) (f : uint → Float) (dst : ArithArray) :
  length dst = n → aa_fill n f dst = f <$> seq 0 n.
Proof.
  intros Hlen. rewrite aa_fill_prefix by lia.
  by rewrite drop_ge, app_nil_r by lia.
Qed.

Lemma upper_pairs_length (n : uint) :
  length (upper_pairs n) = numOfFactors n.
Proof.
  unfold upper_pairs, numOfFactors.
  assert (Hgen : ∀ m s,
            2 * length (a ← seq s m; (λ b, (a, b)) <$> seq a (s + m - a)) =
            m * (m + 1)).
  { induction m as [|m IH]; intros s; [done|].
    cbn [seq mbind list_bind]. rewrite length_app, length_fmap, length_seq.
    specialize (IH (S s)).
    replace (S s + m) with (s + S m) in IH by lia. lia. }
  specialize (Hgen n 0). simpl in Hgen.
  apply Nat.div_unique_exact; lia.
Qed.

Lemma elem_of_upper_pairs (n a b : uint) :
  (a, b) ∈ upper_pairs n ↔ a ≤ b < n.
Proof.
  unfold upper_pairs. rewrite list_elem_of_bind. split.
  - intros (a' & Hb & Ha). apply list_elem_of_fmap in Hb as (b' & [= -> ->] & Hb).
    apply elem_of_seq in Ha, Hb. lia.
  - intros Hab. exists a. split.
    + apply list_elem_of_fmap. exists b. split; [done|]. apply elem_of_seq. lia.
    + apply elem_of_seq. lia.
Qed.

(** A loop that writes a computed value at the running offset of every
    element fills the array with the values. *)
Lemma forM_fill {A : Type} (g : A → option Float) (h : A → Float → Float)
    (body : uint * A → ArithArray → option ArithArray)
    (l : list A) (first : uint) (acc acc' : ArithArray) :
  (∀ offset x acc,
     body (offset, x) acc = v ← g x; Some (<[offset := h x v]> acc)) →
  forM (imap (λ i, pair (first + i)) l) body acc = Some acc' →
  length acc = first + length l →
  ∃ values,
    Forall2 (λ x v, g x = Some v) l values ∧
    acc' = take first acc ++ zip_with h l values.
Proof.
  intros Hbody.
  revert first acc. induction l as [|x l IH]; intros first acc Hrun Hlen.
  - simpl in *. injection Hrun as <-. exists []. split; [constructor|].
    by rewrite app_nil_r, take_ge by lia.
  - simpl in Hrun. rewrite Hbody in Hrun.
    destruct (g x) as [v|] eqn:Hv; [|done]. simpl in Hrun.
    rewrite (imap_ext _ (λ i, pair (S first + i))) in Hrun; last first.
    { intros i y _. simpl. f_equal. lia. }
    rewrite Nat.add_0_r in Hrun.
    destruct (IH (S first) _ Hrun) as (values & Hvalues & ->).
    { rewrite length_insert. simpl in Hlen. lia. }
    exists (v :: values). split; [by constructor|]. simpl.
    rewrite (take_S_r _ _ (h x v)); last first.
    { apply list_lookup_insert_eq. simpl in Hlen. lia. }
    rewrite take_insert_ge by lia. by rewrite <- app_assoc.
Qed.

(** ** Initialising the finest scale *)

Section Init.

Variable kDimension : uint.
Variable statistics : SampleStatistics.

(** The accumulated sum of channel [si] at a pixel, and the accumulated
    product of the channels [si_a <= si_b]: the sum of squares on the
    diagonal, the cross term of the pair otherwise. *)
Definition sampleSum (pixel_index si : uint) : Float :=
  aa_get (default [] (sampleTable statistics !! pixel_index)) si.

Definition sampleProductSum (pixel_index si_a si_b : uint) : Float :=
  if decide (si_a = si_b)
  then aa_get (default [] (sampleSquaredTable statistics !! pixel_index)) si_a
  else default 0%Qc
         (covarianceFactorTable statistics !!
            (numOfCovarianceFactors statistics * pixel_index +
             (getFactorIndex statistics si_a + ((si_b - si_a) - 1)))).

(** The entries of the statistics that [init] reads for a pixel, and for a
    pixel and a bin, are there. *)
Definition statisticsPresent (pixel_index : uint) : Prop :=
  is_Some (sampleTable statistics !! pixel_index) ∧
  is_Some (sampleSquaredTable statistics !! pixel_index) ∧
  ∀ si_a si_b, si_a < si_b < kDimension →
    is_Some (covarianceFactorTable statistics !!
               (numOfCovarianceFactors statistics * pixel_index +
                (getFactorIndex statistics si_a + ((si_b - si_a) - 1)))).

Definition histogramPresent (bins b pixel_index : uint) : Prop :=
  is_Some (histogramTable statistics !! (bins * pixel_index + b)).

(** The pixel part of the lambda [init_parameters]. *)
Definition initPixel (k k1 : Float) (pixel_index : uint) (self : Parameters)
    : option Parameters :=
  sample_p ← vec_get (sampleTable statistics) pixel_index;
  sample_values ← vec_update (sample_value_table_ self) pixel_index
    (aa_fill kDimension (λ si, (k * aa_get sample_p si)%Qc));
  let self := set_sample_value_table self sample_values in
  sample_squared_p ← vec_get (sampleSquaredTable statistics) pixel_index;
  let factor_index := numOfCovarianceFactors statistics * pixel_index in
  covariance_factor ← vec_get (covariance_factor_table_ self) pixel_index;
  covariance_factor ← forM (imap pair (upper_pairs kDimension))
    (λ '(offset, (si_a, si_b)) covariance_factor,
      v ← (if decide (si_a = si_b)
           then Some (aa_get sample_squared_p si_a)
           else vec_get (covarianceFactorTable statistics)
                  (factor_index +
                   (getFactorIndex statistics si_a + ((si_b - si_a) - 1))));
      Some (<[offset :=
               (v - k * aa_get sample_p si_a * aa_get sample_p si_b)%Qc]>
            covariance_factor))
    covariance_factor;
  factors ← vec_set (covariance_factor_table_ self) pixel_index
    (aa_mul_assign covariance_factor (k * k1)%Qc);
  Some (set_covariance_factor_table self factors).

(** The histogram part. *)
Definition initHistogram (res : Index2d) (b pixel_index : uint)
    (self : Parameters) : option Parameters :=
  let histogram_offset := b * (res.1 * res.2) in
  let src_index := histogram_bins_ self * pixel_index + b in
  src ← vec_get (histogramTable statistics) src_index;
  let dst_index := histogram_offset + pixel_index in
  histogram ← vec_update (histogram_table_ self) dst_index
    (aa_fill kDimension (λ si, aa_get src si));
  Some (set_histogram_table self histogram).

Lemma init_parameters_steps (system : System) (thread_id : uint)
    (self : Parameters) :
  init_parameters kDimension system statistics thread_id self =
  let res := resolution_ self in
  let range := calcThreadRange system (res.1 * res.2) thread_id in
  k ← invert (cast_Float (num_of_samples_ self));
  k1 ← invert (cast_Float (num_of_samples_ self - 1));
  self ← for_range range.1 range.2 (initPixel k k1) self;
  for_range 0 (histogram_bins_ self) (λ b self,
    for_range range.1 range.2 (initHistogram res b) self) self.
Proof. reflexivity. Qed.

(** What [init] leaves in the tables. *)
Definition expectedValue (k : Float) (pixel_index : uint) : ArithArray :=
  (λ si, k * sampleSum pixel_index si)%Qc <$> seq 0 kDimension.

Definition expectedFactors (k k1 : Float) (pixel_index : uint) : ArithArray :=
  (λ ab : uint * uint,
     (sampleProductSum pixel_index ab.1 ab.2 -
      k * sampleSum pixel_index ab.1 * sampleSum pixel_index ab.2) *
     (k * k1))%Qc <$> upper_pairs kDimension.

Definition expectedHistogram (bins b pixel_index : uint) : ArithArray :=
  (λ si, aa_get (default [] (histogramTable statistics !!
                               (bins * pixel_index + b))) si)
    <$> seq 0 kDimension.

(** The shape of the tables of an instance under initialisation. *)
Definition initShape (res : Index2d) (cycle bins : uint) (self : Parameters)
    : Prop :=
  resolution_ self = res ∧ num_of_samples_ self = cycle ∧
  histogram_bins_ self = bins ∧
  Forall (λ v, length v = kDimension) (sample_value_table_ self) ∧
  Forall (λ v, length v = numOfFactors kDimension)
    (covariance_factor_table_ self) ∧
  Forall (λ v, length v = kDimension) (histogram_table_ self) ∧
  length (sample_value_table_ self) = res.1 * res.2 ∧
  length (covariance_factor_table_ self) = res.1 * res.2 ∧
  length (histogram_table_ self) = bins * res.1 * res.2 ∧
  denoised_value_table_ self = replicate (res.1 * res.2) (aa_zero kDimension).

Lemma Forall_insert_length {A : Type} (n : uint) (t : list (list A))
    (i : uint) (v : list A) :
  Forall (λ v, length v = n) t → length v = n →
  Forall (λ v, length v = n) (<[i := v]> t).
Proof. intros Ht Hv. by apply Forall_insert. Qed.

Lemma initPixel_effect (res : Index2d) (cycle bins : uint) (k k1 : Float)
    (pixel_index : uint) (self self' : Parameters) :
  initShape res cycle bins self →
  initPixel k k1 pixel_index self = Some self' →
  initShape res cycle bins self' ∧
  pixel_index < length (sample_value_table_ self) ∧
  pixel_index < length (covariance_factor_table_ self) ∧
  sample_value_table_ self' =
    <[pixel_index := expectedValue k pixel_index]> (sample_value_table_ self) ∧
  covariance_factor_table_ self' =
    <[pixel_index := expectedFactors k k1 pixel_index]>
      (covariance_factor_table_ self) ∧
  histogram_table_ self' = histogram_table_ self ∧
  statisticsPresent pixel_index.
Proof.
  intros (Hres & Hcycle & Hbins & Hsample & Hfactors & Hhist &
          Hlen_s & Hlen_c & Hlen_h & Hdenoised) Hrun.
  unfold initPixel, vec_get, vec_set in Hrun.
  apply bind_Some in Hrun as (sample_p & Hsample_p & Hrun).
  apply bind_Some in Hrun as (sample_values & Hvalues & Hrun).
  apply bind_Some in Hrun as (sample_squared_p & Hsquared & Hrun).
  apply bind_Some in Hrun as (cf0 & Hcf0 & Hrun).
  apply bind_Some in Hrun as (cf & Hcf & Hrun).
  apply bind_Some in Hrun as (factors & Hfactors' & Hrun).
  injection Hrun as <-.
  cbn [covariance_factor_table_ set_sample_value_table] in Hcf0, Hfactors'.
  apply vec_update_Some in Hvalues as (old & Hold & ->).
  apply vec_update_Some in Hfactors' as (old' & Hold' & ->).
  pose proof (Forall_lookup_1 _ _ _ _ Hsample Hold) as Hlen_old.
  pose proof (Forall_lookup_1 _ _ _ _ Hfactors Hcf0) as Hlen_cf0.
  rewrite aa_fill_eq by done.
  assert (Hvalue : (λ si, (k * aa_get sample_p si)%Qc) <$> seq 0 kDimension =
                   expectedValue k pixel_index).
  { unfold expectedValue, sampleSum. by rewrite Hsample_p. }
  rewrite Hvalue.
  assert (Hpresent : statisticsPresent pixel_index).
  { split; [done|]. split; [done|]. intros si_a si_b Hab.
    match type of Hcf with
    | forM _ ?body _ = _ =>
        destruct (forM_fill
                (λ ab : uint * uint,
                   if decide (ab.1 = ab.2)
                   then Some (aa_get sample_squared_p ab.1)
                   else vec_get (covarianceFactorTable statistics)
                          (numOfCovarianceFactors statistics * pixel_index +
                           (getFactorIndex statistics ab.1 +
                            ((ab.2 - ab.1) - 1))))
                (λ ab v, (v - k * aa_get sample_p ab.1 *
                              aa_get sample_p ab.2)%Qc)
                body (upper_pairs kDimension) 0 cf0 cf)
          as (values & Hvalues & _)
    end.
    { by intros offset [a b] acc. }
    { exact Hcf. }
    { by rewrite Hlen_cf0, upper_pairs_length. }
    assert (Hin : (si_a, si_b) ∈ upper_pairs kDimension)
      by (apply elem_of_upper_pairs; lia).
    apply list_elem_of_lookup in Hin as [offset Hoffset].
    destruct (Forall2_lookup_l _ _ _ _ _ Hvalues Hoffset) as (v & _ & Hv).
    cbn [fst snd] in Hv. rewrite decide_False in Hv by lia.
    by exists v. }
  assert (Hcf' : aa_mul_assign cf (k * k1)%Qc =
                 expectedFactors k k1 pixel_index).
  { match type of Hcf with
    | forM _ ?body _ = _ =>
        destruct (forM_fill
                (λ ab : uint * uint,
                   if decide (ab.1 = ab.2)
                   then Some (aa_get sample_squared_p ab.1)
                   else vec_get (covarianceFactorTable statistics)
                          (numOfCovarianceFactors statistics * pixel_index +
                           (getFactorIndex statistics ab.1 +
                            ((ab.2 - ab.1) - 1))))
                (λ ab v, (v - k * aa_get sample_p ab.1 *
                              aa_get sample_p ab.2)%Qc)
                body (upper_pairs kDimension) 0 cf0 cf)
          as (values & Hvalues & ->)
    end.
    { by intros offset [si_a si_b] acc. }
    { exact Hcf. }
    { by rewrite Hlen_cf0, upper_pairs_length. }
    rewrite take_0, app_nil_l. unfold expectedFactors, aa_mul_assign.
    clear Hcf Hlen_cf0 Hpresent.
    induction Hvalues as [|[si_a si_b] v l values Hv _ IH]; [done|].
    cbn [zip_with map fmap list_fmap]. f_equal; [|exact IH].
    unfold sampleProductSum, sampleSum. rewrite Hsample_p, Hsquared.
    cbn [fst snd default] in *. case_decide; [by simplify_eq|].
    unfold vec_get in Hv. by rewrite Hv. }
  rewrite Hcf'.
  split; [|split; [by eapply lookup_lt_Some|
           split; [by eapply lookup_lt_Some|done]]].
  clear Hpresent.
  repeat split; try done; cbn [sample_value_table_ covariance_factor_table_
    histogram_table_ set_covariance_factor_table set_sample_value_table];
    rewrite ?length_insert; try done.
  - apply Forall_insert; [done|].
    unfold expectedValue. by rewrite length_fmap, length_seq.
  - apply Forall_insert; [done|].
    unfold expectedFactors. by rewrite length_fmap, upper_pairs_length.
Qed.

Lemma initHistogram_effect (res : Index2d) (cycle bins : uint)
    (b pixel_index : uint) (self self' : Parameters) :
  initShape res cycle bins self →
  initHistogram res b pixel_index self = Some self' →
  initShape res cycle bins self' ∧
  b * (res.1 * res.2) + pixel_index < length (histogram_table_ self) ∧
  sample_value_table_ self' = sample_value_table_ self ∧
  covariance_factor_table_ self' = covariance_factor_table_ self ∧
  histogram_table_ self' =
    <[b * (res.1 * res.2) + pixel_index :=
        expectedHistogram bins b pixel_index]> (histogram_table_ self) ∧
  histogramPresent bins b pixel_index.
Proof.
  intros (Hres & Hcycle & Hbins & Hsample & Hfactors & Hhist &
          Hlen_s & Hlen_c & Hlen_h & Hdenoised) Hrun.
  unfold initHistogram, vec_get in Hrun. rewrite Hbins in Hrun.
  apply bind_Some in Hrun as (src & Hsrc & Hrun).
  apply bind_Some in Hrun as (histogram & Hhistogram & Hrun).
  injection Hrun as <-.
  apply vec_update_Some in Hhistogram as (old & Hold & ->).
  pose proof (Forall_lookup_1 _ _ _ _ Hhist Hold) as Hlen_old.
  rewrite aa_fill_eq by done.
  assert (Hvalue : (λ si, aa_get src si) <$> seq 0 kDimension =
                   expectedHistogram bins b pixel_index).
  { unfold expectedHistogram. by rewrite Hsrc. }
  rewrite Hvalue.
  split; [|split; [by eapply lookup_lt_Some|]].
  2: { repeat split; try done. by exists src. }
  repeat split; try done; cbn [histogram_table_ set_histogram_table];
    rewrite ?length_insert; try done.
  apply Forall_insert; [done|].
  unfold expectedHistogram. by rewrite length_fmap, length_seq.
Qed.

(** The entries that [init] is to leave for one pixel and one bin. *)
Section InitEntries.

Variable system : System.
Variable cycle bins : uint.
Variable pixel_index b : uint.

Let res := imageResolution system.
Let n := res.1 * res.2.
Let k := (/ cast_Float cycle)%Qc.
Let k1 := (/ cast_Float (cycle - 1))%Qc.

Definition pixelInitialised (self : Parameters) : Prop :=
  statisticsPresent pixel_index ∧
  sample_value_table_ self !! pixel_index =
    Some (expectedValue k pixel_index) ∧
  covariance_factor_table_ self !! pixel_index =
    Some (expectedFactors k k1 pixel_index).

Definition binInitialised (self : Parameters) : Prop :=
  histogramPresent bins b pixel_index ∧
  histogram_table_ self !! (b * n + pixel_index) =
    Some (expectedHistogram bins b pixel_index).

(** Whatever of the two holds before holds after. *)
Definition initKeeps (t1 t2 : Parameters) : Prop :=
  (pixelInitialised t1 → pixelInitialised t2) ∧
  (binInitialised t1 → binInitialised t2).

Lemma initKeeps_refl (t : Parameters) : initKeeps t t.
Proof. by split. Qed.

Lemma initKeeps_trans (t1 t2 t3 : Parameters) :
  initKeeps t1 t2 → initKeeps t2 t3 → initKeeps t1 t3.
Proof. intros [? ?] [? ?]. split; auto. Qed.

Lemma initPixel_keeps (i : uint) (t1 t2 : Parameters) :
  initShape res cycle bins t1 →
  initPixel k k1 i t1 = Some t2 →
  initShape res cycle bins t2 ∧ initKeeps t1 t2 ∧
  (i = pixel_index → pixelInitialised t2).
Proof.
  intros Hshape Hrun.
  destruct (initPixel_effect _ _ _ _ _ _ _ _ Hshape Hrun)
    as (Hshape' & Hi1 & Hi2 & Hsample & Hfactors & Hhist & Hpresent).
  split; [done|]. unfold initKeeps, pixelInitialised, binInitialised.
  rewrite Hsample, Hfactors, Hhist. split; [split; [|done]|].
  - intros (Hp & Hv & Hf). split; [done|].
    destruct (decide (i = pixel_index)) as [->|Hne].
    + by rewrite !list_lookup_insert_eq.
    + by rewrite !list_lookup_insert_ne.
  - intros <-. split; [done|]. by rewrite !list_lookup_insert_eq.
Qed.

Lemma initHistogram_keeps (b' i : uint) (t1 t2 : Parameters) :
  initShape res cycle bins t1 →
  i < n → pixel_index < n →
  initHistogram res b' i t1 = Some t2 →
  initShape res cycle bins t2 ∧ initKeeps t1 t2 ∧
  (b' = b → i = pixel_index → binInitialised t2).
Proof.
  intros Hshape Hi Hpixel Hrun.
  destruct (initHistogram_effect _ _ _ _ _ _ _ Hshape Hrun)
    as (Hshape' & Hlt & Hsample & Hfactors & Hhist & Hpresent).
  split; [done|]. unfold initKeeps, pixelInitialised, binInitialised.
  rewrite Hsample, Hfactors, Hhist. fold n in Hlt |- *. split; [split; [done|]|].
  - intros [Hp Hh]. split; [done|].
    destruct (decide (b' * n + i = b * n + pixel_index)) as [Heq|Hne].
    + assert (b' = b) as -> by nia. assert (i = pixel_index) as -> by lia.
      by rewrite list_lookup_insert_eq.
    + by rewrite list_lookup_insert_ne.
  - intros <- <-. split; [done|]. by rewrite list_lookup_insert_eq.
Qed.

Lemma init_parameters_keeps (thread_id : uint) (t1 t2 : Parameters) :
  (∀ index, index ∈ threadIndices system n ↔ index < n) →
  thread_id < numOfThreads system →
  pixel_index < n →
  initShape res cycle bins t1 →
  init_parameters kDimension system statistics thread_id t1 = Some t2 →
  initShape res cycle bins t2 ∧ initKeeps t1 t2 ∧
  ((calcThreadRange system n thread_id).1 ≤ pixel_index <
     (calcThreadRange system n thread_id).2 →
   pixelInitialised t2 ∧ (b < bins → binInitialised t2)).
Proof.
  intros Hall Hthread Hpixel Hshape Hrun.
  rewrite init_parameters_steps in Hrun. cbn zeta in Hrun.
  destruct Hshape as (Hres & Hcycle & Hbins & Hrest).
  rewrite Hres, Hcycle in Hrun. fold res n in Hrun.
  assert (Hshape : initShape res cycle bins t1) by done.
  apply bind_Some in Hrun as (k' & [_ ->]%invert_Some & Hrun).
  apply bind_Some in Hrun as (k1' & [_ ->]%invert_Some & Hrun).
  apply bind_Some in Hrun as (t & Hpixels & Hbins').
  fold k k1 in Hpixels.
  set (range := calcThreadRange system n thread_id) in *.
  assert (Hrange : ∀ i, i ∈ seq range.1 (range.2 - range.1) → i < n).
  { intros i Hi. apply Hall. unfold threadIndices.
    apply list_elem_of_bind. exists thread_id. split; [done|].
    apply elem_of_seq. lia. }
  unfold for_range in Hpixels, Hbins'.
  destruct (forM_cover (initShape res cycle bins) initKeeps
              (λ i t, i = pixel_index → pixelInitialised t)
              (seq range.1 (range.2 - range.1)) (initPixel k k1) t1 t
              initKeeps_refl initKeeps_trans)
    as (Hshape1 & Hkeeps1 & Hcov1); [| |done|exact Hpixels|].
  { intros i u1 u2 [Hk _] Hc ->. by apply Hk, Hc. }
  { intros i u1 u2 _ Hu1 Hstep. by apply initPixel_keeps. }
  assert (Hbins1 : histogram_bins_ t = bins) by by destruct Hshape1 as (_&_&?&_).
  rewrite Hbins1, Nat.sub_0_r in Hbins'.
  destruct (forM_cover (initShape res cycle bins) initKeeps
              (λ b' t, b' = b → range.1 ≤ pixel_index < range.2 →
                       binInitialised t)
              (seq 0 bins)
              (λ b' self,
                 forM (seq range.1 (range.2 - range.1))
                   (initHistogram res b') self)
              t t2 initKeeps_refl initKeeps_trans)
    as (Hshape2 & Hkeeps2 & Hcov2); [| |done|exact Hbins'|].
  { intros b' u1 u2 [_ Hk] Hc Hb Hin. by apply Hk, Hc. }
  { intros b' u1 u2 _ Hu1 Hstep.
    destruct (forM_cover (initShape res cycle bins) initKeeps
                (λ i t, b' = b → i = pixel_index → binInitialised t)
                (seq range.1 (range.2 - range.1)) (initHistogram res b')
                u1 u2 initKeeps_refl initKeeps_trans)
      as (Hshape3 & Hkeeps3 & Hcov3); [| |done|exact Hstep|].
    { intros i v1 v2 [_ Hk] Hc Hb Hi. by apply Hk, Hc. }
    { intros i v1 v2 Hi Hv1 Hstep'.
      by apply initHistogram_keeps; [|apply Hrange|..]. }
    split; [done|]. split; [done|]. intros Hb Hin.
    apply (Hcov3 pixel_index); [|done..]. apply elem_of_seq. lia. }
  split; [done|]. split; [by eapply initKeeps_trans|].
  intros Hin. split.
  - apply Hkeeps2. apply (Hcov1 pixel_index); [|done].
    apply elem_of_seq. lia.
  - intros Hb. apply (Hcov2 b); [|done..]. apply elem_of_seq. lia.
Qed.

End InitEntries.

Lemma resize_tables_shape (res : Index2d) (cycle bins : uint) :
  initShape res cycle bins
    (resize_tables kDimension res cycle bins Parameters_new).
Proof.
  unfold initShape, resize_tables. cbn. rewrite !vec_resize_nil.
  repeat split; rewrite ?length_replicate; try done;
    apply Forall_replicate; unfold aa_zero; by rewrite length_replicate.
Qed.

(** After [init], the tables hold the expected values, the covariance
    factors and the histogram bins of every pixel. *)
Lemma init_entries (system : System) (cycle bins : uint) (p : Parameters)
    (pixel_index b : uint) :
  let res := imageResolution system in
  threadsPartition system (res.1 * res.2) →
  pixel_index < res.1 * res.2 →
  init kDimension system cycle bins statistics Parameters_new = Some p →
  initShape res cycle bins p ∧
  pixelInitialised cycle pixel_index p ∧
  (b < bins → binInitialised system bins pixel_index b p).
Proof.
  intros res [_ Hall] Hpixel Hrun. unfold init in Hrun. fold res in Hrun.
  destruct (forM_cover (initShape res cycle bins)
              (initKeeps system cycle bins pixel_index b)
              (λ thread_id t,
                 (calcThreadRange system (res.1 * res.2) thread_id).1 ≤
                   pixel_index <
                   (calcThreadRange system (res.1 * res.2) thread_id).2 →
                 pixelInitialised cycle pixel_index t ∧
                 (b < bins → binInitialised system bins pixel_index b t))
              (seq 0 (numOfThreads system))
              (init_parameters kDimension system statistics)
              (resize_tables kDimension res cycle bins Parameters_new) p
              (initKeeps_refl _ _ _ _ _) (initKeeps_trans _ _ _ _ _))
    as (Hshape & _ & Hcov);
    [| |apply resize_tables_shape|exact Hrun|].
  - intros thread_id t1 t2 [Hk1 Hk2] Hc Hin.
    destruct (Hc Hin) as [? ?]. split; [by apply Hk1|].
    intros Hb. apply Hk2. auto.
  - intros thread_id t1 t2 [_ Hthread]%elem_of_seq Ht1 Hstep.
    by apply init_parameters_keeps.
  - split; [done|].
    apply Hall in Hpixel. unfold threadIndices in Hpixel.
    apply list_elem_of_bind in Hpixel as (thread_id & Hin & Hthread).
    apply elem_of_seq in Hin. apply (Hcov thread_id Hthread). lia.
Qed.

End Init.

(** ** The covariance matrix *)










(** ** Sums of rationals *)

Definition sumQc (l : list Float) : Float := foldr Qcplus 0%Qc l.

Lemma sumQc_nil : sumQc [] = 0%Qc.
Proof. reflexivity. Qed.

Lemma sumQc_cons (x : Float) (l : list Float) :
  sumQc (x :: l) = (x + sumQc l)%Qc.
Proof. reflexivity. Qed.





Section Sums.

Context {A : Type}.
Implicit Types (f g : A → Float) (l : list A).

Lemma sumQc_fmap_ext f g l :
  (∀ x, x ∈ l → f x = g x) → sumQc (f <$> l) = sumQc (g <$> l).
Proof.
  induction l as [|x l IH]; intros Hfg; [done|].
  rewrite !fmap_cons, !sumQc_cons, (Hfg x) by (by left). f_equal. apply IH.
  intros y Hy. apply Hfg. by right.
Qed.


Lemma sumQc_fmap_scale (c : Float) f l :
  sumQc ((λ x, c * f x)%Qc <$> l) = (c * sumQc (f <$> l))%Qc.
Proof.
  induction l as [|x l IH]; [cbn; ring|].
  rewrite !fmap_cons, !sumQc_cons, IH. ring.
Qed.



End Sums.

Lemma sumQc_app (l1 l2 : list Float) :
  sumQc (l1 ++ l2) = (sumQc l1 + sumQc l2)%Qc.
Proof.
  induction l1 as [|x l1 IH].
  - rewrite app_nil_l, sumQc_nil. ring.
  - rewrite <- app_comm_cons, !sumQc_cons, IH. ring.
Qed.

(** The sum over all pairs of a product is the product of the sums. *)
Lemma sumQc_cprod_mult {A B : Type} (a : A → Float) (b : B → Float)
    (l1 : list A) (l2 : list B) :
  sumQc ((λ rc, a rc.1 * b rc.2)%Qc <$> cprod l1 l2) =
  (sumQc (a <$> l1) * sumQc (b <$> l2))%Qc.
Proof.
  induction l1 as [|x l1 IH].
  - change (cprod [] l2) with (@nil (A * B)).
    rewrite !fmap_nil, sumQc_nil. ring.
  - change (cprod (x :: l1) l2) with ((pair x <$> l2) ++ cprod l1 l2).
    rewrite fmap_app, sumQc_app, IH, <- list_fmap_compose.
    rewrite (sumQc_fmap_ext _ (λ y, a x * b y)%Qc) by done.
    rewrite sumQc_fmap_scale, fmap_cons, sumQc_cons. ring.
Qed.




(** ** The quadratic form of the covariance matrix *)







(** ** What [init] computes *)










(** ** The tables of [init] in closed form *)

Lemma lookup_mjoin_block {A : Type} (ls : list (list A)) (n b i : uint) :
  Forall (λ l, length l = n) ls → i < n →
  mjoin ls !! (b * n + i) = ls !! b ≫= (λ l, l !! i).
Proof.
  intros Hls Hi. revert b. induction Hls as [|l ls Hl Hls IH]; intros b.
  - by rewrite !lookup_nil.
  - change (mjoin (l :: ls)) with (l ++ mjoin ls). destruct b as [|b].
    + rewrite lookup_app_l by lia. done.
    + rewrite lookup_app_r by (cbn; lia).
      replace (S b * n + i - length l) with (b * n + i) by (cbn; lia).
      by rewrite IH.
Qed.

Lemma length_mjoin_blocks {A : Type} (ls : list (list A)) (n : uint) :
  Forall (λ l, length l = n) ls → length (mjoin ls) = length ls * n.
Proof.
  induction 1 as [|l ls Hl Hls IH]; [done|].
  change (mjoin (l :: ls)) with (l ++ mjoin ls). rewrite length_app, IH, Hl. done.
Qed.

Lemma fmap_seq_const {A : Type} (f : uint → A) (v : A) (n : uint) :
  (∀ i, i < n → f i = v) → f <$> seq 0 n = replicate n v.
Proof.
  intros Hf. apply list_eq. intros i.
  rewrite list_lookup_fmap. destruct (decide (i < n)) as [Hi|Hi].
  - rewrite lookup_seq_lt, lookup_replicate_2 by done. cbn. by rewrite Hf.
  - rewrite lookup_seq_ge by lia. symmetry. apply lookup_replicate_None. lia.
Qed.

(** [init] leaves the expected values, the covariance factors and the
    histogram, bin after bin, of every pixel. *)
Lemma init_closed_form (kDimension : uint) (statistics : SampleStatistics)
    (system : System) (cycle bins : uint) (p : Parameters) :
  let res := imageResolution system in
  let n := res.1 * res.2 in
  0 < n →
  threadsPartition system n →
  init kDimension system cycle bins statistics Parameters_new = Some p →
  p = {| resolution_ := res;
         num_of_samples_ := cycle;
         histogram_bins_ := bins;
         sample_value_table_ :=
           expectedValue kDimension statistics (/ cast_Float cycle)
             <$> seq 0 n;
         histogram_table_ :=
           mjoin ((λ b, expectedHistogram kDimension statistics bins b
                          <$> seq 0 n) <$> seq 0 bins);
         covariance_factor_table_ :=
           expectedFactors kDimension statistics (/ cast_Float cycle)
             (/ cast_Float (cycle - 1)) <$> seq 0 n;
         denoised_value_table_ := replicate n (aa_zero kDimension) |}.
Proof.
  intros res n Hn Hthreads Hrun.
  pose proof (λ pixel_index b Hpixel,
                init_entries kDimension statistics system cycle bins p
                  pixel_index b Hthreads Hpixel Hrun) as Hentries.
  fold res n in Hentries.
  destruct (Hentries 0 0 Hn)
    as ((Hres & Hcycle & Hbins & _ & _ & _ & Hlen_s & Hlen_c & Hlen_h & Hden)
        & _ & _).
  fold n in Hlen_s, Hlen_c, Hlen_h, Hden.
  destruct p as [res' cycle' bins' values histogram factors denoised].
  cbn in Hres, Hcycle, Hbins, Hlen_s, Hlen_c, Hlen_h, Hden.
  subst res' cycle' bins' denoised. f_equal.
  - apply list_eq. intros i. rewrite list_lookup_fmap.
    destruct (decide (i < n)) as [Hi|Hi].
    + destruct (Hentries i 0 Hi) as (_ & (_ & Hv & _) & _). cbn in Hv.
      rewrite Hv, lookup_seq_lt by done. done.
    + rewrite lookup_seq_ge by lia. apply lookup_ge_None_2. lia.
  - assert (Hblocks :
      Forall (λ l, length l = n)
        ((λ b, expectedHistogram kDimension statistics bins b <$> seq 0 n)
           <$> seq 0 bins)).
    { apply Forall_fmap, Forall_forall. intros b _. cbn.
      by rewrite length_fmap, length_seq. }
    apply list_eq. intros j.
    destruct (decide (j < bins * n)) as [Hj|Hj].
    + assert (Hb : j / n < bins).
      { apply Nat.Div0.div_lt_upper_bound. lia. }
      assert (Hi : j mod n < n) by (apply Nat.mod_upper_bound; lia).
      assert (Hsplit : j = j / n * n + j mod n).
      { rewrite (Nat.div_mod_eq j n) at 1. lia. }
      destruct (Hentries (j mod n) (j / n) Hi) as (_ & _ & Hh).
      destruct (Hh Hb) as [_ Hlookup]. cbn in Hlookup. fold res n in Hlookup.
      rewrite Hsplit at 1 2. rewrite Hlookup.
      rewrite (lookup_mjoin_block _ n) by done.
      rewrite list_lookup_fmap, lookup_seq_lt by done. cbn.
      rewrite list_lookup_fmap, lookup_seq_lt by done. done.
    + rewrite lookup_ge_None_2 by lia. symmetry. apply lookup_ge_None_2.
      rewrite (length_mjoin_blocks _ n) by done.
      rewrite length_fmap, length_seq. lia.
  - apply list_eq. intros i. rewrite list_lookup_fmap.
    destruct (decide (i < n)) as [Hi|Hi].
    + destruct (Hentries i 0 Hi) as (_ & (_ & _ & Hf) & _). cbn in Hf.
      rewrite Hf, lookup_seq_lt by done. done.
    + rewrite lookup_seq_ge by lia. apply lookup_ge_None_2. lia.
Qed.

(** ** A constant image *)

Lemma init_constantStatistics (w h : uint) (p : Parameters) :
  0 < w * h →
  init 3 (exampleSystem w h) 16 8 (constantStatistics w h 16 1 2 8 4)
    Parameters_new = Some p →
  p = constantParameters w h.
Proof.
  intros Hn Hrun.
  rewrite (init_closed_form 3 _ (exampleSystem w h) _ _ p Hn
             (exampleSystem_partition w h _) Hrun).
  cbn [imageResolution exampleSystem fst snd]. unfold constantParameters.
  f_equal.
  - apply fmap_seq_const. intros i Hi.
    unfold expectedValue, sampleSum. cbn [sampleTable constantStatistics].
    rewrite lookup_replicate_2 by done. cbn [default seq fmap list_fmap replicate].
    repeat f_equal; by apply Qc_is_canon.
  - apply (f_equal mjoin). apply list_fmap_ext. intros b' b [Hb' Hb]%lookup_seq.
    cbn [Nat.add] in Hb'. subst b'.
    apply fmap_seq_const. intros i Hi.
    unfold expectedHistogram. cbn [histogramTable constantStatistics].
    replace (8 * i + b) with (i * 8 + b) by lia.
    rewrite (lookup_mjoin_block _ 8); [| |lia].
    2: { apply Forall_replicate. by rewrite length_fmap, length_seq. }
    rewrite lookup_replicate_2 by done. cbn [mbind option_bind].
    rewrite list_lookup_fmap, lookup_seq_lt by lia.
    cbn [fmap option_fmap option_map default seq list_fmap replicate Nat.add].
    destruct (decide (b = 4)); done.
  - apply fmap_seq_const. intros i Hi.
    unfold expectedFactors.
    change (upper_pairs 3) with [(0, 0); (0, 1); (0, 2); (1, 1); (1, 2); (2, 2)].
    unfold sampleProductSum, sampleSum.
    cbn [sampleTable sampleSquaredTable covarianceFactorTable
         numOfCovarianceFactors getFactorIndex constantStatistics].
    cbn [default fmap list_fmap replicate fst snd rgbFactorIndex].
    rewrite !lookup_replicate_2 by (cbn [Nat.sub Nat.add]; lia).
    repeat f_equal; by apply Qc_is_canon.
Qed.

(** With one scale the pyramid is the instance that [init] builds. *)
Lemma buildPyramid_one_scale (self : BayesianCollaborativeDenoiser)
    (kDimension : uint) (system : System) (cycle : uint)
    (statistics : SampleStatistics) :
  num_of_scales_ self = 1 →
  buildPyramid self kDimension system cycle statistics =
  option_map (λ p, [p])
    (init kDimension system cycle (histogramBins self) statistics
       Parameters_new).
Proof.
  intros Hscales. unfold buildPyramid. rewrite Hscales. cbn [replicate].
  change (vec_get [Parameters_new] 0) with (Some Parameters_new).
  cbn [mbind option_bind].
  destruct (init _ _ _ _ _ _) as [p|]; reflexivity.
Qed.

Lemma denoiseMultiscale_one_scale (self : BayesianCollaborativeDenoiser)
    (kDimension : uint) (system : System) (cycle : uint)
    (statistics : SampleStatistics) :
  num_of_scales_ self = 1 →
  denoiseMultiscale self kDimension system cycle statistics =
  match init kDimension system cycle (histogramBins self) statistics
          Parameters_new with
  | Some p => denoiseScales self kDimension system statistics [p]
  | None => None
  end.
Proof.
  intros Hscales. unfold denoiseMultiscale.
  rewrite buildPyramid_one_scale by done.
  destruct (init _ _ _ _ _ _) as [p|]; reflexivity.
Qed.

Lemma denoiseScales_constantParameters :
  denoiseScales (exampleDenoiser 8 0 1 3 1) 3 (exampleSystem 64 64)
    (constantStatistics 64 64 16 1 2 8 4) [constantParameters 64 64] = None.
Proof.
  vm_cast_no_check (eq_refl (@None (SampleStatistics * list (uint * uint)))).
Qed.

Lemma inverseMatrix_zero : inverseMatrix 3 (mat_zero 3) = None.
Proof. reflexivity. Qed.

(** C5, at the scenario of the claim: a 64 x 64 RGB image of the constant
    colour 1/2 without variance, sixteen samples, eight histogram bins, patch
    radius 1 and search radius 3.  Every patch is similar to every other; at
    the first main pixel whose search window holds more patches than the
    patch dimension, (3, 2), [denoiseSelectedPatches] has the zero matrix for
    the expected covariance and inverts it: the run does not produce a
    denoised image. *)
Theorem constant_image_inverts_zero_covariance :
  denoise (exampleDenoiser 8 0 1 3 1) 3 (exampleSystem 64 64) 16
    (constantStatistics 64 64 16 1 2 8 4) = None.
Proof.
  change (denoiseMultiscale (exampleDenoiser 8 0 1 3 1) 3 (exampleSystem 64 64)
            16 (constantStatistics 64 64 16 1 2 8 4) = None).
  rewrite denoiseMultiscale_one_scale by reflexivity.
  change (histogramBins (exampleDenoiser 8 0 1 3 1)) with 8.
  pose proof (init_constantStatistics 64 64) as Hinit.
  destruct (init 3 (exampleSystem 64 64) 16 8
              (constantStatistics 64 64 16 1 2 8 4) Parameters_new)
    as [p|]; [|reflexivity].
  rewrite (Hinit p) by (done || (cbn; lia)).
  exact denoiseScales_constantParameters.
Qed.

(** ** The properties at concrete inputs *)





Lemma Qcle_0_0 : (0 ≤ 0)%Qc.
Proof. apply Qcle_refl. Qed.


Lemma marked_pixels_are_estimated_witness :
  ∃ ws' out',
    rampPass (exampleDenoiser 1 0 0 1 1) = Some (ws', out') ∧
    isMarked 6 (pixel_marker ws') 0 = Some true ∧
    counted (estimates_counter ws') 0.
Proof.
  assert (Hmarked :
    option_map (λ r : Workspace * list (uint * uint),
                  isMarked 6 (pixel_marker r.1) 0)
      (rampPass (exampleDenoiser 1 0 0 1 1)) = Some (Some true))
    by (vm_compute; reflexivity).
  destruct (rampPass (exampleDenoiser 1 0 0 1 1)) as [[ws' out']|] eqn:Hrun;
    [|discriminate].
  cbn [option_map fst] in Hmarked. injection Hmarked as Hmarked.
  exists ws', out'. split; [reflexivity|]. split; [exact Hmarked|].
  apply (marked_pixels_are_estimated (exampleDenoiser 1 0 0 1 1) 1 0
           (rampParameters 8 8) (replicate 64 [q 0]) (replicate 64 0%Z)
           (PixelMarker_new 6 (exampleSystem 8 8))
           (getChunkResolution (exampleDenoiser 1 0 0 1 1)
              (resolution_ (rampParameters 8 8)))
           (getChunkTileOrder (exampleDenoiser 1 0 0 1 1)) 0 [] out' ws').
  - simpl. lia.
  - exact Qcle_0_0.
  - unfold rampPass in Hrun. exact Hrun.
  - exact Hmarked.
Defined.

(** With patch radius 1 every main pixel of the 8 x 8 image takes the
    fallback: at the end of the pass pixel 0 has been estimated once, and
    pixel 27 nine times, and no marker bit is set. *)
Lemma fallback_estimates_without_marking :
  option_map (λ r : Workspace * list (uint * uint),
                (estimates_counter r.1 !! 0, isMarked 6 (pixel_marker r.1) 0,
                 estimates_counter r.1 !! 27,
                 isMarked 6 (pixel_marker r.1) 27))
    (rampPass (exampleDenoiser 1 0 1 1 1)) =
  Some (Some 1%Z, Some false, Some 9%Z, Some false).
Proof. vm_compute. reflexivity. Qed.

Lemma selectSimilarPatches_mask_witness :
  ∃ similar_mask,
    selectSimilarPatches (exampleDenoiser 1 0 1 1 1) 1 (rampParameters 8 8)
      (3, 3) = Some similar_mask ∧
    similar_mask !!
      getIndex (makeSearchWindow (exampleDenoiser 1 0 1 1 1) (8, 8) (3, 3))
        (3, 3) = Some true.
Proof.
  destruct (selectSimilarPatches (exampleDenoiser 1 0 1 1 1) 1
              (rampParameters 8 8) (3, 3)) as [similar_mask|] eqn:Hmask;
    [|vm_compute in Hmask; discriminate].
  exists similar_mask. split; [reflexivity|].
  destruct (selectSimilarPatches_mask (exampleDenoiser 1 0 1 1 1) 1
              (rampParameters 8 8) (3, 3)) as [_ Hbits].
  - unfold interior. simpl. lia.
  - exact Qcle_0_0.
  - destruct (Hbits similar_mask Hmask) as (_ & Hmain & _). exact Hmain.
Defined.

Lemma denoisePixels_fallback_witness :
  ∃ similar_mask,
    selectSimilarPatches (exampleDenoiser 1 0 1 1 1) 1 (rampParameters 8 8)
      (3, 3) = Some similar_mask ∧
    mask_count similar_mask = 3 ∧
    denoisePixels (exampleDenoiser 1 0 1 1 1) 1 (3, 3) rampWorkspace =
    (λ st : Parameters * list Z,
       {| parameters := st.1;
          staging_value_table := staging_value_table rampWorkspace;
          estimates_counter := st.2;
          pixel_marker := pixel_marker rampWorkspace |}) <$>
      denoiseOnlyMainPatch (exampleDenoiser 1 0 1 1 1) 1 (3, 3) similar_mask
        (rampParameters 8 8, estimates_counter rampWorkspace).
Proof.
  assert (Hcount :
    option_map mask_count
      (selectSimilarPatches (exampleDenoiser 1 0 1 1 1) 1 (rampParameters 8 8)
         (3, 3)) = Some 3)
    by (vm_compute; reflexivity).
  destruct (selectSimilarPatches (exampleDenoiser 1 0 1 1 1) 1
              (rampParameters 8 8) (3, 3)) as [similar_mask|] eqn:Hmask;
    [|discriminate].
  cbn [option_map] in Hcount. injection Hcount as Hcount.
  exists similar_mask. split; [reflexivity|]. split; [exact Hcount|].
  destruct (denoisePixels_fallback (exampleDenoiser 1 0 1 1 1) 1 (3, 3)
              rampWorkspace similar_mask) as [Hpixels _].
  - unfold interior. simpl. lia.
  - exact Qcle_0_0.
  - exact Hmask.
  - rewrite Hpixels, Hcount. reflexivity.
Defined.
